(** * RevenueBridge: a shallow embedding of [contracts/RevenueBridge.sol]

    The contract is embedded as executable Rocq functions over an explicit
    world state.  Solidity's [uint256] is [N] (non-negative by type) with the
    checked arithmetic of Solidity 0.8 written out: an operation whose result
    leaves [0, 2^256) reverts with [Panic 0x11].  Storage mappings are
    [gmap]s read with the zero default.  A call either returns a value and a
    new state, or reverts; a reverted call leaves no trace in storage.

    The modifiers inherited from OpenZeppelin ([onlyOwner], [nonReentrant],
    [whenNotPaused]) are functions wrapping the body, applied in the order
    they are written on each function.  [keccak256] is a parameter.  The token
    behind [INBPT] is a store of partition balances that never calls back.
    Event logs are write-only and are left out: nothing below observes them. *)

From Stdlib Require Import NArith Lia String List.
From Stdlib.Strings Require Import Byte.
From stdpp Require Import base option gmap fin_maps.
Import ListNotations.

Local Open Scope N_scope.

(** ** Machine types *)

Abbreviation address := N (only parsing).
Abbreviation bytes32 := N (only parsing).
Abbreviation uint256 := N (only parsing).

Definition MAX_UINT256 : N := 2 ^ 256 - 1.

(** [SettlementStatus], in declaration order (PENDING is the zero value). *)
Inductive SettlementStatus := PENDING | SETTLED | REVERSED | DISPUTED.

#[global] Instance SettlementStatus_eq_dec : EqDecision SettlementStatus.
Proof. solve_decision. Defined.

(** The custom errors of the contract, those of the OpenZeppelin v5 bases it
    inherits ([Ownable], [ReentrancyGuard], [Pausable]; the specification
    calls [EnforcedPause] "OperationPaused"), the compiler's arithmetic panic,
    and the failure of the external token. *)
Inductive Error :=
| Unauthorized
| ZeroAddress
| ZeroAmount
| InvalidPercentages
| InvoiceAlreadyProcessed (invoiceId : string)
| SettlementNotFound (settlementId : bytes32)
| InvalidSettlementStatus (settlementId : bytes32) (current required : SettlementStatus)
| InvalidSourceSystem
| OwnableUnauthorizedAccount (account : address)
| OwnableInvalidOwner (account : address)
| EnforcedPause
| ExpectedPause
| ReentrancyGuardReentrantCall
| Panic (code : N)
| InsufficientPartitionBalance.

Inductive Result (A : Type) : Type :=
| Ok (a : A)
| Revert (e : Error).
Arguments Ok {A} a.
Arguments Revert {A} e.

Definition bindR {A B} (r : Result A) (k : A -> Result B) : Result B :=
  match r with
  | Ok a => k a
  | Revert e => Revert e
  end.

(** ** Checked arithmetic (Solidity >= 0.8) *)

Definition checked_add (a b : uint256) : Result uint256 :=
  if a + b <=? MAX_UINT256 then Ok (a + b) else Revert (Panic 17).

Definition checked_sub (a b : uint256) : Result uint256 :=
  if b <=? a then Ok (a - b) else Revert (Panic 17).

Definition checked_mul (a b : uint256) : Result uint256 :=
  if a * b <=? MAX_UINT256 then Ok (a * b) else Revert (Panic 17).

Definition checked_div (a b : uint256) : Result uint256 :=
  if b =? 0 then Revert (Panic 18) else Ok (a / b).

(** ** Constants and records of the contract *)

Definition MAX_PERCENTAGE : uint256 := 100.
Definition BASIS_POINTS : uint256 := 10000.

Record RevenueEntry := {
  invoiceId : string;
  payer : address;
  beneficiary : address;
  amount : uint256;
  currency : address;
  sourceSystem : bytes32;
  destinationSystem : bytes32;
  settlementId : bytes32;
  status : SettlementStatus;
  bridgedAt : uint256;
  settledAt : uint256
}.

(** What reading an unset slot of [mapping(bytes32 => RevenueEntry)] gives. *)
Definition zeroEntry : RevenueEntry := {|
  invoiceId := EmptyString; payer := 0; beneficiary := 0; amount := 0;
  currency := 0; sourceSystem := 0; destinationSystem := 0; settlementId := 0;
  status := PENDING; bridgedAt := 0; settledAt := 0
|}.

(** [entry.status = st] on a storage reference. *)
Definition set_status (st : SettlementStatus) (e : RevenueEntry) : RevenueEntry := {|
  invoiceId := invoiceId e; payer := payer e; beneficiary := beneficiary e;
  amount := amount e; currency := currency e; sourceSystem := sourceSystem e;
  destinationSystem := destinationSystem e; settlementId := settlementId e;
  status := st; bridgedAt := bridgedAt e; settledAt := settledAt e
|}.

Record AllocationConfig := {
  reserveBps : uint256;
  liquidityBps : uint256;
  enterpriseBps : uint256;
  stakingBps : uint256
}.

(** The allocation written by the constructor: 40/30/20/10 percent. *)
Definition defaultAllocation : AllocationConfig :=
  {| reserveBps := 4000; liquidityBps := 3000; enterpriseBps := 2000; stakingBps := 1000 |}.

(** ** The token partition store (interface [INBPT]) *)

(** Modelled from the spec: the implementation behind [INBPT] (the NBPT token,
    and the mock the tests deploy) is not among the sources.  The four
    well-known partition identifiers returned by [PARTITION_RESERVE()] and its
    siblings are the constructors below. *)
Inductive Partition := PARTITION_RESERVE | PARTITION_LIQUIDITY | PARTITION_ENTERPRISE | PARTITION_STAKING.

#[global] Instance Partition_eq_dec : EqDecision Partition.
Proof. solve_decision. Defined.

Definition Partition_to_N (p : Partition) : N :=
  match p with
  | PARTITION_RESERVE => 0 | PARTITION_LIQUIDITY => 1
  | PARTITION_ENTERPRISE => 2 | PARTITION_STAKING => 3
  end.

Definition Partition_of_N (n : N) : option Partition :=
  match n with
  | 0 => Some PARTITION_RESERVE | 1 => Some PARTITION_LIQUIDITY
  | 2 => Some PARTITION_ENTERPRISE | 3 => Some PARTITION_STAKING
  | _ => None
  end.

#[global] Program Instance Partition_countable : Countable Partition :=
  inj_countable Partition_to_N Partition_of_N _.
Next Obligation. by intros []. Qed.

(** Modelled from the spec: the Token Partition Store "holds per-partition,
    per-account balances". *)
Record TokenStore := { balances : gmap (Partition * address) uint256 }.

(** Modelled from the spec: [balanceOf(partition, account) -> amount]. *)
Definition balanceOfByPartition (t : TokenStore) (p : Partition) (a : address) : uint256 :=
  default 0 (balances t !! (p, a)).

(** Modelled from the spec: [issue(partition, account, amount)]; the balance
    is a [uint256], so an issuance past [MAX_UINT256] fails. *)
Definition issueToPartition (p : Partition) (a : address) (amt : uint256)
    (t : TokenStore) : Result TokenStore :=
  bindR (checked_add (balanceOfByPartition t p a) amt) (fun b =>
  Ok {| balances := <[(p, a) := b]> (balances t) |}).

(** Modelled from the spec: [burn(partition, account, amount)]; "Burn must
    fail loudly if requested amount exceeds balance". *)
Definition burnFromPartition (p : Partition) (a : address) (amt : uint256)
    (t : TokenStore) : Result TokenStore :=
  if balanceOfByPartition t p a <? amt then Revert InsufficientPartitionBalance
  else Ok {| balances := <[(p, a) := balanceOfByPartition t p a - amt]> (balances t) |}.

(** ** World state and call environment *)

(** The storage of the bridge (own fields, then the inherited [Ownable],
    [Pausable] and [ReentrancyGuard] slots), the address it is deployed at,
    and the storage of the token it points to. *)
Record State := {
  bridgeOperator : address;
  allocation : AllocationConfig;
  invoiceToSettlement : gmap bytes32 bytes32;
  settlements : gmap bytes32 RevenueEntry;
  totalRevenueBridged : uint256;
  totalRevenueReversed : uint256;
  _settlementNonce : uint256;
  owner : address;
  paused : bool;
  reentrancyEntered : bool;
  this : address;
  nbptToken : TokenStore
}.

Record Env := {
  msg_sender : address;
  block_timestamp : uint256;
  block_chainid : uint256
}.

(** A state-mutating call: a value and the new state, or a revert. *)
Definition M (A : Type) : Type := State -> Result (A * State).

Definition ret {A} (a : A) : M A := fun s => Ok (a, s).
Definition bind {A B} (m : M A) (k : A -> M B) : M B := fun s =>
  match m s with
  | Ok (a, s') => k a s'
  | Revert e => Revert e
  end.
Definition revert {A} (e : Error) : M A := fun _ => Revert e.
Definition lift {A} (r : Result A) : M A := fun s =>
  match r with Ok a => Ok (a, s) | Revert e => Revert e end.
Definition get : M State := fun s => Ok (s, s).
Definition modify (f : State -> State) : M unit := fun s => Ok (tt, f s).
Definition when_ (b : bool) (m : M unit) : M unit := if b then m else ret tt.

Notation "'let!' x ':=' c1 'in' c2" := (bind c1 (fun x => c2))
  (at level 10, x name, c1 at level 100, c2 at level 200).
Notation "'let!' ' pat ':=' c1 'in' c2" := (bind c1 (fun x => match x with pat => c2 end))
  (at level 10, pat pattern, c1 at level 100, c2 at level 200).
Notation "'do!' c1 'in' c2" := (bind c1 (fun _ => c2))
  (at level 10, c1 at level 100, c2 at level 200).

(** Storage writes, one per field the contract assigns. *)
Definition set_bridgeOperator (v : address) (s : State) : State := {|
  bridgeOperator := v; allocation := allocation s;
  invoiceToSettlement := invoiceToSettlement s; settlements := settlements s;
  totalRevenueBridged := totalRevenueBridged s; totalRevenueReversed := totalRevenueReversed s;
  _settlementNonce := _settlementNonce s; owner := owner s; paused := paused s;
  reentrancyEntered := reentrancyEntered s; this := this s; nbptToken := nbptToken s |}.

Definition set_allocation (v : AllocationConfig) (s : State) : State := {|
  bridgeOperator := bridgeOperator s; allocation := v;
  invoiceToSettlement := invoiceToSettlement s; settlements := settlements s;
  totalRevenueBridged := totalRevenueBridged s; totalRevenueReversed := totalRevenueReversed s;
  _settlementNonce := _settlementNonce s; owner := owner s; paused := paused s;
  reentrancyEntered := reentrancyEntered s; this := this s; nbptToken := nbptToken s |}.

Definition set_invoiceToSettlement (v : gmap bytes32 bytes32) (s : State) : State := {|
  bridgeOperator := bridgeOperator s; allocation := allocation s;
  invoiceToSettlement := v; settlements := settlements s;
  totalRevenueBridged := totalRevenueBridged s; totalRevenueReversed := totalRevenueReversed s;
  _settlementNonce := _settlementNonce s; owner := owner s; paused := paused s;
  reentrancyEntered := reentrancyEntered s; this := this s; nbptToken := nbptToken s |}.

Definition set_settlements (v : gmap bytes32 RevenueEntry) (s : State) : State := {|
  bridgeOperator := bridgeOperator s; allocation := allocation s;
  invoiceToSettlement := invoiceToSettlement s; settlements := v;
  totalRevenueBridged := totalRevenueBridged s; totalRevenueReversed := totalRevenueReversed s;
  _settlementNonce := _settlementNonce s; owner := owner s; paused := paused s;
  reentrancyEntered := reentrancyEntered s; this := this s; nbptToken := nbptToken s |}.

Definition set_totalRevenueBridged (v : uint256) (s : State) : State := {|
  bridgeOperator := bridgeOperator s; allocation := allocation s;
  invoiceToSettlement := invoiceToSettlement s; settlements := settlements s;
  totalRevenueBridged := v; totalRevenueReversed := totalRevenueReversed s;
  _settlementNonce := _settlementNonce s; owner := owner s; paused := paused s;
  reentrancyEntered := reentrancyEntered s; this := this s; nbptToken := nbptToken s |}.

Definition set_totalRevenueReversed (v : uint256) (s : State) : State := {|
  bridgeOperator := bridgeOperator s; allocation := allocation s;
  invoiceToSettlement := invoiceToSettlement s; settlements := settlements s;
  totalRevenueBridged := totalRevenueBridged s; totalRevenueReversed := v;
  _settlementNonce := _settlementNonce s; owner := owner s; paused := paused s;
  reentrancyEntered := reentrancyEntered s; this := this s; nbptToken := nbptToken s |}.

Definition set_settlementNonce (v : uint256) (s : State) : State := {|
  bridgeOperator := bridgeOperator s; allocation := allocation s;
  invoiceToSettlement := invoiceToSettlement s; settlements := settlements s;
  totalRevenueBridged := totalRevenueBridged s; totalRevenueReversed := totalRevenueReversed s;
  _settlementNonce := v; owner := owner s; paused := paused s;
  reentrancyEntered := reentrancyEntered s; this := this s; nbptToken := nbptToken s |}.

Definition set_owner (v : address) (s : State) : State := {|
  bridgeOperator := bridgeOperator s; allocation := allocation s;
  invoiceToSettlement := invoiceToSettlement s; settlements := settlements s;
  totalRevenueBridged := totalRevenueBridged s; totalRevenueReversed := totalRevenueReversed s;
  _settlementNonce := _settlementNonce s; owner := v; paused := paused s;
  reentrancyEntered := reentrancyEntered s; this := this s; nbptToken := nbptToken s |}.

Definition set_paused (v : bool) (s : State) : State := {|
  bridgeOperator := bridgeOperator s; allocation := allocation s;
  invoiceToSettlement := invoiceToSettlement s; settlements := settlements s;
  totalRevenueBridged := totalRevenueBridged s; totalRevenueReversed := totalRevenueReversed s;
  _settlementNonce := _settlementNonce s; owner := owner s; paused := v;
  reentrancyEntered := reentrancyEntered s; this := this s; nbptToken := nbptToken s |}.

Definition set_reentrancyEntered (v : bool) (s : State) : State := {|
  bridgeOperator := bridgeOperator s; allocation := allocation s;
  invoiceToSettlement := invoiceToSettlement s; settlements := settlements s;
  totalRevenueBridged := totalRevenueBridged s; totalRevenueReversed := totalRevenueReversed s;
  _settlementNonce := _settlementNonce s; owner := owner s; paused := paused s;
  reentrancyEntered := v; this := this s; nbptToken := nbptToken s |}.

Definition set_nbptToken (v : TokenStore) (s : State) : State := {|
  bridgeOperator := bridgeOperator s; allocation := allocation s;
  invoiceToSettlement := invoiceToSettlement s; settlements := settlements s;
  totalRevenueBridged := totalRevenueBridged s; totalRevenueReversed := totalRevenueReversed s;
  _settlementNonce := _settlementNonce s; owner := owner s; paused := paused s;
  reentrancyEntered := reentrancyEntered s; this := this s; nbptToken := v |}.

(** ** [abi.encodePacked] *)

Definition byte_of_N (n : N) : byte :=
  match Byte.of_N (n mod 256) with Some b => b | None => x00 end.

(** The [k] low-order bytes of [n], most significant first. *)
Fixpoint be_bytes (k : nat) (n : N) : list byte :=
  match k with
  | O => []
  | S k' => be_bytes k' (n / 256) ++ [byte_of_N n]
  end.

(** A [uint256] is packed as its 32 big-endian bytes, a [string] as its bytes. *)
Definition encode_uint256 (n : uint256) : list byte := be_bytes 32 n.
Definition encode_string (s : string) : list byte := list_byte_of_string s.

(** The inverse of [be_bytes] on its range, used to show the packing injective. *)
Definition be_value (l : list byte) : N :=
  fold_left (fun acc b => acc * 256 + Byte.to_N b) l 0.

(** ** The mock token of the deployment script *)

(** [MockNBPTDeployable] of [scripts/DeployRevenueBridge.s.sol]: the token the
    local deployment puts behind the bridge.  Its partition identifiers are
    hashes of the partition names. *)
Definition partitionId (keccak256 : list byte -> bytes32) (p : Partition) : bytes32 :=
  match p with
  | PARTITION_RESERVE => keccak256 (encode_string "RESERVE")
  | PARTITION_LIQUIDITY => keccak256 (encode_string "LIQUIDITY")
  | PARTITION_ENTERPRISE => keccak256 (encode_string "ENTERPRISE")
  | PARTITION_STAKING => keccak256 (encode_string "STAKING")
  end.

Module MockNBPTDeployable.

(** [mapping(bytes32 => mapping(address => uint256)) private _balances] *)
Record Storage := { _balances : gmap bytes32 (gmap address uint256) }.

Definition empty : Storage := {| _balances := ∅ |}.

Definition balanceOfByPartition (m : Storage) (partition : bytes32) (account : address)
    : uint256 :=
  default 0 (default ∅ (_balances m !! partition) !! account).

(** The assignment [_balances[partition][account] = v]. *)
Definition store (partition : bytes32) (account : address) (v : uint256) (m : Storage)
    : Storage :=
  {| _balances :=
       <[partition := <[account := v]> (default ∅ (_balances m !! partition))]>
         (_balances m) |}.

(** [_balances[partition][account] += amount], checked. *)
Definition issueToPartition (partition : bytes32) (account : address) (amount : uint256)
    (m : Storage) : Result Storage :=
  bindR (checked_add (balanceOfByPartition m partition account) amount) (fun v =>
  Ok (store partition account v m)).

(** [_balances[partition][account] -= amount], checked. *)
Definition burnFromPartition (partition : bytes32) (account : address) (amount : uint256)
    (m : Storage) : Result Storage :=
  bindR (checked_sub (balanceOfByPartition m partition account) amount) (fun v =>
  Ok (store partition account v m)).

End MockNBPTDeployable.

(** The mock holds, under its four partition identifiers, the balances the
    token store [t] holds under the four partitions. *)
Definition mockHolds (keccak256 : list byte -> bytes32)
    (m : MockNBPTDeployable.Storage) (t : TokenStore) : Prop :=
  forall p a,
    MockNBPTDeployable.balanceOfByPartition m (partitionId keccak256 p) a
    = balanceOfByPartition t p a.

(** ** The allocation calculator *)

(** [_calculateAllocations], on the configuration it reads from storage. *)
Definition _calculateAllocations (allocation : AllocationConfig) (_amount : uint256)
    : Result (uint256 * uint256 * uint256 * uint256) :=
  bindR (checked_mul _amount (reserveBps allocation)) (fun p1 =>
  bindR (checked_div p1 BASIS_POINTS) (fun reserveAmt =>
  bindR (checked_mul _amount (liquidityBps allocation)) (fun p2 =>
  bindR (checked_div p2 BASIS_POINTS) (fun liquidityAmt =>
  bindR (checked_mul _amount (enterpriseBps allocation)) (fun p3 =>
  bindR (checked_div p3 BASIS_POINTS) (fun enterpriseAmt =>
  bindR (checked_sub _amount reserveAmt) (fun d1 =>
  bindR (checked_sub d1 liquidityAmt) (fun d2 =>
  bindR (checked_sub d2 enterpriseAmt) (fun stakingAmt =>
  Ok (reserveAmt, liquidityAmt, enterpriseAmt, stakingAmt)))))))))).

(** The external view [calculateAllocations]. *)
Definition calculateAllocations (s : State) (_amount : uint256)
    : Result (uint256 * uint256 * uint256 * uint256) :=
  _calculateAllocations (allocation s) _amount.

(** ** The contract *)

Section Contract.

(** [keccak256] is a primitive of the platform, not code of the contract: the
    embedding is parametric in it. *)
Variable keccak256 : list byte -> bytes32.

Definition SOURCE_STRIPE : bytes32 := keccak256 (encode_string "STRIPE").
Definition SOURCE_MERCURY : bytes32 := keccak256 (encode_string "MERCURY").
Definition SOURCE_ESCROW : bytes32 := keccak256 (encode_string "ESCROW").
Definition SOURCE_MANUAL : bytes32 := keccak256 (encode_string "MANUAL").
Definition DEST_DAO_TREASURY : bytes32 := keccak256 (encode_string "NOBLEPORT_DAO").
Definition DEST_OPERATIONS : bytes32 := keccak256 (encode_string "NOBLEPORT_OPS").
Definition DEST_RESERVE : bytes32 := keccak256 (encode_string "NOBLEPORT_RESERVE").

(** *** Modifiers *)

Definition onlyOperator {A} (env : Env) (body : M A) : M A := fun s =>
  if negb (msg_sender env =? bridgeOperator s) && negb (msg_sender env =? owner s)
  then Revert Unauthorized
  else body s.

(** [Ownable.onlyOwner] (OpenZeppelin v5). *)
Definition onlyOwner {A} (env : Env) (body : M A) : M A := fun s =>
  if negb (owner s =? msg_sender env)
  then Revert (OwnableUnauthorizedAccount (msg_sender env))
  else body s.

(** [ReentrancyGuard.nonReentrant]: take the lock, run the body, release. *)
Definition nonReentrant {A} (body : M A) : M A := fun s =>
  if reentrancyEntered s then Revert ReentrancyGuardReentrantCall
  else match body (set_reentrancyEntered true s) with
       | Ok (a, s') => Ok (a, set_reentrancyEntered false s')
       | Revert e => Revert e
       end.

(** [Pausable.whenNotPaused] and [Pausable.whenPaused]. *)
Definition whenNotPaused {A} (body : M A) : M A := fun s =>
  if paused s then Revert EnforcedPause else body s.

Definition whenPaused {A} (body : M A) : M A := fun s =>
  if paused s then body s else Revert ExpectedPause.

(** *** Internal functions *)

Definition _generateSettlementId (env : Env) (_invoiceId : string) : M bytes32 :=
  let! s := get in
  let! nonce := lift (checked_add (_settlementNonce s) 1) in
  do! modify (set_settlementNonce nonce) in
  ret (keccak256 (encode_string _invoiceId ++ encode_uint256 (block_timestamp env)
                  ++ encode_uint256 (block_chainid env) ++ encode_uint256 nonce)).

(** An external call into the token: it runs on the token's storage. *)
Definition token_call (f : TokenStore -> Result TokenStore) : M unit := fun s =>
  match f (nbptToken s) with
  | Ok t => Ok (tt, set_nbptToken t s)
  | Revert e => Revert e
  end.

Definition _issueToPartitions (_settlementId : bytes32) (_recipient : address)
    (_reserveAmt _liquidityAmt _enterpriseAmt _stakingAmt : uint256) : M unit :=
  let reservePartition := PARTITION_RESERVE in
  let liquidityPartition := PARTITION_LIQUIDITY in
  let enterprisePartition := PARTITION_ENTERPRISE in
  let stakingPartition := PARTITION_STAKING in
  do! when_ (0 <? _reserveAmt)
        (token_call (issueToPartition reservePartition _recipient _reserveAmt)) in
  do! when_ (0 <? _liquidityAmt)
        (token_call (issueToPartition liquidityPartition _recipient _liquidityAmt)) in
  do! when_ (0 <? _enterpriseAmt)
        (token_call (issueToPartition enterprisePartition _recipient _enterpriseAmt)) in
  when_ (0 <? _stakingAmt)
        (token_call (issueToPartition stakingPartition _recipient _stakingAmt)).

Definition _burnFromPartitions (_account : address)
    (_reserveAmt _liquidityAmt _enterpriseAmt _stakingAmt : uint256) : M unit :=
  do! when_ (0 <? _reserveAmt)
        (token_call (burnFromPartition PARTITION_RESERVE _account _reserveAmt)) in
  do! when_ (0 <? _liquidityAmt)
        (token_call (burnFromPartition PARTITION_LIQUIDITY _account _liquidityAmt)) in
  do! when_ (0 <? _enterpriseAmt)
        (token_call (burnFromPartition PARTITION_ENTERPRISE _account _enterpriseAmt)) in
  when_ (0 <? _stakingAmt)
        (token_call (burnFromPartition PARTITION_STAKING _account _stakingAmt)).

(** *** Operator functions *)

Definition bridgeRevenue (env : Env) (_invoiceId : string) (_amount : uint256)
    (_payer _beneficiary _currency : address)
    (_sourceSystem _destinationSystem : bytes32) : M bytes32 :=
  onlyOperator env (nonReentrant (whenNotPaused (
    if _amount =? 0 then revert ZeroAmount else
    if _beneficiary =? 0 then revert ZeroAddress else
    let invoiceHash := keccak256 (encode_string _invoiceId) in
    let! s := get in
    if negb (default 0 (invoiceToSettlement s !! invoiceHash) =? 0)
    then revert (InvoiceAlreadyProcessed _invoiceId) else
    let! settlementId := _generateSettlementId env _invoiceId in
    let! s := get in
    let! '(reserveAmt, liquidityAmt, enterpriseAmt, stakingAmt) :=
      lift (_calculateAllocations (allocation s) _amount) in
    do! modify (fun s => set_settlements (<[settlementId := {|
          invoiceId := _invoiceId;
          payer := _payer;
          beneficiary := _beneficiary;
          amount := _amount;
          currency := _currency;
          sourceSystem := _sourceSystem;
          destinationSystem := _destinationSystem;
          settlementId := settlementId;
          status := SETTLED;
          bridgedAt := block_timestamp env;
          settledAt := block_timestamp env |}]> (settlements s)) s) in
    do! modify (fun s =>
          set_invoiceToSettlement (<[invoiceHash := settlementId]> (invoiceToSettlement s)) s) in
    let! s := get in
    let! total := lift (checked_add (totalRevenueBridged s) _amount) in
    do! modify (set_totalRevenueBridged total) in
    do! _issueToPartitions settlementId _beneficiary
          reserveAmt liquidityAmt enterpriseAmt stakingAmt in
    ret settlementId))).

(** [this.bridgeRevenue(...)] is a message call of the contract to itself: the
    callee sees the contract's own address as [msg.sender], runs on the same
    storage, and its revert bubbles up. *)
Definition bridgeStripeRevenue (env : Env) (_invoiceId : string) (_amount : uint256)
    (_beneficiary : address) : M bytes32 :=
  onlyOperator env (nonReentrant (whenNotPaused (
    let! s := get in
    bridgeRevenue {| msg_sender := this s;
                     block_timestamp := block_timestamp env;
                     block_chainid := block_chainid env |}
      _invoiceId _amount 0 _beneficiary 0 SOURCE_STRIPE DEST_DAO_TREASURY))).

Definition reverseSettlement (env : Env) (_settlementId _reason : bytes32) : M unit :=
  onlyOperator env (nonReentrant (whenNotPaused (
    let! s := get in
    let entry := default zeroEntry (settlements s !! _settlementId) in
    if bridgedAt entry =? 0 then revert (SettlementNotFound _settlementId) else
    if negb (bool_decide (status entry = SETTLED))
    then revert (InvalidSettlementStatus _settlementId (status entry) SETTLED) else
    let oldStatus := status entry in
    let entry := set_status REVERSED entry in
    do! modify (fun s => set_settlements (<[_settlementId := entry]> (settlements s)) s) in
    let! s := get in
    let! total := lift (checked_add (totalRevenueReversed s) (amount entry)) in
    do! modify (set_totalRevenueReversed total) in
    let! s := get in
    let! '(reserveAmt, liquidityAmt, enterpriseAmt, stakingAmt) :=
      lift (_calculateAllocations (allocation s) (amount entry)) in
    _burnFromPartitions (beneficiary entry)
      reserveAmt liquidityAmt enterpriseAmt stakingAmt))).

Definition disputeSettlement (env : Env) (_settlementId : bytes32) : M unit :=
  onlyOperator env (
    let! s := get in
    let entry := default zeroEntry (settlements s !! _settlementId) in
    if bridgedAt entry =? 0 then revert (SettlementNotFound _settlementId) else
    let oldStatus := status entry in
    modify (fun s =>
      set_settlements (<[_settlementId := set_status DISPUTED entry]> (settlements s)) s)).

(** *** Admin functions *)

Definition setOperator (env : Env) (_newOperator : address) : M unit :=
  onlyOwner env (
    if _newOperator =? 0 then revert ZeroAddress else
    modify (set_bridgeOperator _newOperator)).

Definition setAllocation (env : Env)
    (_reserveBps _liquidityBps _enterpriseBps _stakingBps : uint256) : M unit :=
  onlyOwner env (
    let! s1 := lift (checked_add _reserveBps _liquidityBps) in
    let! s2 := lift (checked_add s1 _enterpriseBps) in
    let! s3 := lift (checked_add s2 _stakingBps) in
    if negb (s3 =? BASIS_POINTS) then revert InvalidPercentages else
    modify (set_allocation {|
      reserveBps := _reserveBps;
      liquidityBps := _liquidityBps;
      enterpriseBps := _enterpriseBps;
      stakingBps := _stakingBps |})).

Definition pause (env : Env) : M unit :=
  onlyOwner env (whenNotPaused (modify (set_paused true))).

Definition unpause (env : Env) : M unit :=
  onlyOwner env (whenPaused (modify (set_paused false))).

(** Inherited from [Ownable] (OpenZeppelin v5). *)
Definition transferOwnership (env : Env) (newOwner : address) : M unit :=
  onlyOwner env (
    if newOwner =? 0 then revert (OwnableInvalidOwner 0) else
    modify (set_owner newOwner)).

Definition renounceOwnership (env : Env) : M unit :=
  onlyOwner env (modify (set_owner 0)).

(** *** Views *)

Definition getSettlement (s : State) (_settlementId : bytes32) : RevenueEntry :=
  default zeroEntry (settlements s !! _settlementId).

Definition getSettlementByInvoice (s : State) (_invoiceId : string) : bytes32 :=
  default 0 (invoiceToSettlement s !! keccak256 (encode_string _invoiceId)).

Definition isInvoiceProcessed (s : State) (_invoiceId : string) : bool :=
  negb (default 0 (invoiceToSettlement s !! keccak256 (encode_string _invoiceId)) =? 0).

Definition netRevenue (s : State) : Result uint256 :=
  checked_sub (totalRevenueBridged s) (totalRevenueReversed s).

(** *** Deployment *)

(** The constructor, run at address [self] with the token whose storage is
    [token]; [Ownable(_owner)] runs first and rejects the zero owner. *)
Definition constructor (self : address) (token : TokenStore)
    (_nbptToken _operator _owner : address) : Result State :=
  if _owner =? 0 then Revert (OwnableInvalidOwner 0) else
  if _nbptToken =? 0 then Revert ZeroAddress else
  if _operator =? 0 then Revert ZeroAddress else
  if _owner =? 0 then Revert ZeroAddress else
  Ok {| bridgeOperator := _operator;
        allocation := {| reserveBps := 4000; liquidityBps := 3000;
                         enterpriseBps := 2000; stakingBps := 1000 |};
        invoiceToSettlement := ∅;
        settlements := ∅;
        totalRevenueBridged := 0;
        totalRevenueReversed := 0;
        _settlementNonce := 0;
        owner := _owner;
        paused := false;
        reentrancyEntered := false;
        this := self;
        nbptToken := token |}.

(** *** Transactions *)

(** The state-mutating entry points of the deployed contract. *)
Inductive Call :=
| CallBridgeRevenue (_invoiceId : string) (_amount : uint256)
    (_payer _beneficiary _currency : address) (_sourceSystem _destinationSystem : bytes32)
| CallBridgeStripeRevenue (_invoiceId : string) (_amount : uint256) (_beneficiary : address)
| CallReverseSettlement (_settlementId _reason : bytes32)
| CallDisputeSettlement (_settlementId : bytes32)
| CallSetOperator (_newOperator : address)
| CallSetAllocation (_reserveBps _liquidityBps _enterpriseBps _stakingBps : uint256)
| CallPause
| CallUnpause
| CallTransferOwnership (newOwner : address)
| CallRenounceOwnership.

Definition dispatch (env : Env) (c : Call) : M unit :=
  match c with
  | CallBridgeRevenue i a p b cur src dst =>
      do! bridgeRevenue env i a p b cur src dst in ret tt
  | CallBridgeStripeRevenue i a b =>
      do! bridgeStripeRevenue env i a b in ret tt
  | CallReverseSettlement sid reason => reverseSettlement env sid reason
  | CallDisputeSettlement sid => disputeSettlement env sid
  | CallSetOperator a => setOperator env a
  | CallSetAllocation r l e st => setAllocation env r l e st
  | CallPause => pause env
  | CallUnpause => unpause env
  | CallTransferOwnership a => transferOwnership env a
  | CallRenounceOwnership => renounceOwnership env
  end.

(** A transaction commits the state its call returns, or nothing at all. *)
Definition transact (env : Env) (c : Call) (s : State) : State :=
  match dispatch env c s with
  | Ok (_, s') => s'
  | Revert _ => s
  end.

(** One step of the world: a transaction on the bridge, or other accounts
    changing the token store behind the bridge's back (the token is a
    contract of its own). *)
Inductive step : State -> State -> Prop :=
| step_call env c s : step s (transact env c s)
| step_token t s : step s (set_nbptToken t s).

(** The states the deployed contract can be in: the one the constructor
    leaves, and those a step leads to. *)
Inductive reachable : State -> Prop :=
| reachable_init self token _nbptToken _operator _owner s :
    constructor self token _nbptToken _operator _owner = Ok s ->
    reachable s
| reachable_step s s' :
    reachable s -> step s s' -> reachable s'.

End Contract.

(** ** A concrete hash for running the model

    Any collision-free hash serves to evaluate the contract on concrete
    transactions; this one reads the bytes as digits 1..256 in base 257. *)
Fixpoint idealHash (l : list byte) : bytes32 :=
  match l with
  | [] => 1
  | b :: l' => idealHash l' * 257 + (Byte.to_N b + 1)
  end.

(** ** A concrete deployment, for evaluating the model *)

Module Scenario.
Definition bridgeAddr : address := 100.
Definition tokenAddr : address := 200.
Definition owner0 : address := 1.
Definition operator0 : address := 2.
Definition treasury : address := 3.
Definition payer0 : address := 4.
Definition unauthorized : address := 5.

Definition emptyToken : TokenStore := {| balances := ∅ |}.

Definition as_ (sender : address) : Env :=
  {| msg_sender := sender; block_timestamp := 1700000000; block_chainid := 1 |}.

(** The state [new RevenueBridge(token, operator0, owner0)] leaves. *)
Definition genesis : State := {|
  bridgeOperator := operator0;
  allocation := defaultAllocation;
  invoiceToSettlement := ∅;
  settlements := ∅;
  totalRevenueBridged := 0;
  totalRevenueReversed := 0;
  _settlementNonce := 0;
  owner := owner0;
  paused := false;
  reentrancyEntered := false;
  this := bridgeAddr;
  nbptToken := emptyToken |}.

(** The identifier [_generateSettlementId] computes for the [n]-th
    settlement under [idealHash] in the environment of [as_]. *)
Definition sid (inv : string) (n : uint256) : bytes32 :=
  idealHash (encode_string inv ++ encode_uint256 1700000000
             ++ encode_uint256 1 ++ encode_uint256 n).

Definition bridge (inv : string) (amt : uint256) : Call :=
  CallBridgeRevenue inv amt payer0 treasury 0
    (SOURCE_STRIPE idealHash) (DEST_DAO_TREASURY idealHash).

Definition balancesOf (s : State) (a : address) : uint256 * uint256 * uint256 * uint256 :=
  (balanceOfByPartition (nbptToken s) PARTITION_RESERVE a,
   balanceOfByPartition (nbptToken s) PARTITION_LIQUIDITY a,
   balanceOfByPartition (nbptToken s) PARTITION_ENTERPRISE a,
   balanceOfByPartition (nbptToken s) PARTITION_STAKING a).

(** One invoice bridged by the operator. *)
Definition bridged1 : State :=
  transact idealHash (as_ operator0) (bridge "inv_1" 10000) genesis.

(** ... then the owner pauses the bridge. *)
Definition bridged1_paused : State :=
  transact idealHash (as_ owner0) CallPause bridged1.

(** ... or the operator reverses that settlement. *)
Definition reversed1 : State :=
  transact idealHash (as_ operator0) (CallReverseSettlement (sid "inv_1" 1) 7) bridged1.

(** A second invoice for the same beneficiary, a change of weights by the
    owner, and the reversal of the second settlement. *)
Definition bridged2 : State :=
  transact idealHash (as_ operator0) (bridge "inv_2" 10000) bridged1.
Definition reversed1_after2 : State :=
  transact idealHash (as_ operator0) (CallReverseSettlement (sid "inv_1" 1) 7) bridged2.
Definition reweighted2 : State :=
  transact idealHash (as_ owner0) (CallSetAllocation 3000 3000 2000 2000) bridged2.
Definition reversed2 : State :=
  transact idealHash (as_ operator0) (CallReverseSettlement (sid "inv_2" 2) 7) reweighted2.

(** The operator disputes the settlement of the paused bridge. *)
Definition disputed1_paused : State :=
  transact idealHash (as_ operator0) (CallDisputeSettlement (sid "inv_1" 1)) bridged1_paused.

(** What the convenience variant is meant to do: [bridgeRevenue] with the
    Stripe defaults, on the fresh deployment. *)
Definition stripeDefaults (inv : string) (amt : uint256) : Call :=
  CallBridgeRevenue inv amt 0 treasury 0
    (SOURCE_STRIPE idealHash) (DEST_DAO_TREASURY idealHash).
Definition bridgedStripe : State :=
  transact idealHash (as_ operator0) (stripeDefaults "inv_stripe" 1000000) genesis.

(** The record [bridged1] holds for "inv_1". *)
Definition entry1 : RevenueEntry := {|
  invoiceId := "inv_1"; payer := payer0; beneficiary := treasury; amount := 10000;
  currency := 0; sourceSystem := SOURCE_STRIPE idealHash;
  destinationSystem := DEST_DAO_TREASURY idealHash; settlementId := sid "inv_1" 1;
  status := SETTLED; bridgedAt := 1700000000; settledAt := 1700000000 |}.
End Scenario.

(** ** Vocabulary of the statements *)

(** The caller passes [onlyOperator]. *)
Definition authorized (env : Env) (s : State) : Prop :=
  msg_sender env = bridgeOperator s \/ msg_sender env = owner s.

Definition weightsSum (c : AllocationConfig) : N :=
  reserveBps c + liquidityBps c + enterpriseBps c + stakingBps c.

(** The share of a four-way split that goes to partition [p]. *)
Definition shareOf (split : uint256 * uint256 * uint256 * uint256) (p : Partition) : uint256 :=
  let '(r, l, e, st) := split in
  match p with
  | PARTITION_RESERVE => r
  | PARTITION_LIQUIDITY => l
  | PARTITION_ENTERPRISE => e
  | PARTITION_STAKING => st
  end.

(** The record [bridgeRevenue] stores under a new settlement identifier. *)
Definition entryOf (env : Env) (_invoiceId : string) (_amount : uint256)
    (_payer _beneficiary _currency : address)
    (_sourceSystem _destinationSystem sid : bytes32) : RevenueEntry := {|
  invoiceId := _invoiceId; payer := _payer; beneficiary := _beneficiary;
  amount := _amount; currency := _currency; sourceSystem := _sourceSystem;
  destinationSystem := _destinationSystem; settlementId := sid;
  status := SETTLED; bridgedAt := block_timestamp env; settledAt := block_timestamp env |}.

(** The state a successful [bridgeRevenue] leaves: the record stored under
    [sid], the invoice hash [h] indexed, the total and the nonce advanced, and
    the token store as the issuance left it. *)
Definition afterBridge (s : State) (h sid : bytes32) (entry : RevenueEntry)
    (t' : TokenStore) : State := {|
  bridgeOperator := bridgeOperator s;
  allocation := allocation s;
  invoiceToSettlement := <[h := sid]> (invoiceToSettlement s);
  settlements := <[sid := entry]> (settlements s);
  totalRevenueBridged := totalRevenueBridged s + amount entry;
  totalRevenueReversed := totalRevenueReversed s;
  _settlementNonce := _settlementNonce s + 1;
  owner := owner s;
  paused := paused s;
  reentrancyEntered := false;
  this := this s;
  nbptToken := t' |}.

(** The state a successful [reverseSettlement] leaves. *)
Definition afterReverse (s : State) (sid : bytes32) (entry : RevenueEntry)
    (t' : TokenStore) : State := {|
  bridgeOperator := bridgeOperator s;
  allocation := allocation s;
  invoiceToSettlement := invoiceToSettlement s;
  settlements := <[sid := set_status REVERSED entry]> (settlements s);
  totalRevenueBridged := totalRevenueBridged s;
  totalRevenueReversed := totalRevenueReversed s + amount entry;
  _settlementNonce := _settlementNonce s;
  owner := owner s;
  paused := paused s;
  reentrancyEntered := false;
  this := this s;
  nbptToken := t' |}.

(** The packed pre-image of a settlement identifier. *)
Definition settlementPreimage (_invoiceId : string) (timestamp chainid nonce : uint256)
    : list byte :=
  encode_string _invoiceId ++ encode_uint256 timestamp
    ++ encode_uint256 chainid ++ encode_uint256 nonce.

(** Did the call return? *)
Definition isOk {A} (r : Result A) : bool :=
  match r with Ok _ => true | Revert _ => false end.

(** The status of a settlement, [None] while there is no such settlement. *)
Definition statusOf (s : State) (id : bytes32) : option SettlementStatus :=
  status <$> settlements s !! id.

(** The status changes the contract performs on one settlement: creation as
    SETTLED, reversal of a SETTLED one, and dispute of any existing one. *)
Inductive statusStep : option SettlementStatus -> option SettlementStatus -> Prop :=
| statusStep_same o : statusStep o o
| statusStep_create : statusStep None (Some SETTLED)
| statusStep_reverse : statusStep (Some SETTLED) (Some REVERSED)
| statusStep_dispute st : statusStep (Some st) (Some DISPUTED).

(** What a record still contributes to the amount that can be reversed. *)
Definition settledAmount (e : RevenueEntry) : N :=
  if decide (status e = SETTLED) then amount e else 0.

Definition settledSum (m : gmap bytes32 RevenueEntry) : N :=
  map_fold (fun _ e acc => acc + settledAmount e) 0 m.

(** The effect of a committed step, call by call. *)
Inductive effect (keccak256 : list byte -> bytes32) (s : State) : State -> Prop :=
| effect_bridge env i a p b cur src dst sid split t' :
    authorized env s -> reentrancyEntered s = false -> paused s = false ->
    a <> 0 -> b <> 0 ->
    isInvoiceProcessed keccak256 s i = false ->
    _settlementNonce s + 1 <= MAX_UINT256 ->
    sid = keccak256 (settlementPreimage i (block_timestamp env) (block_chainid env)
                       (_settlementNonce s + 1)) ->
    totalRevenueBridged s + a <= MAX_UINT256 ->
    _calculateAllocations (allocation s) a = Ok split ->
    (forall q a', balanceOfByPartition t' q a'
       = balanceOfByPartition (nbptToken s) q a'
         + (if decide (a' = b) then shareOf split q else 0)) ->
    effect keccak256 s
      (afterBridge s (keccak256 (encode_string i)) sid
         (entryOf env i a p b cur src dst sid) t')
| effect_reverse sid entry split t' :
    reentrancyEntered s = false -> paused s = false ->
    settlements s !! sid = Some entry ->
    bridgedAt entry <> 0 -> status entry = SETTLED ->
    totalRevenueReversed s + amount entry <= MAX_UINT256 ->
    _calculateAllocations (allocation s) (amount entry) = Ok split ->
    (forall q a', balanceOfByPartition t' q a'
         + (if decide (a' = beneficiary entry) then shareOf split q else 0)
       = balanceOfByPartition (nbptToken s) q a') ->
    effect keccak256 s (afterReverse s sid entry t')
| effect_dispute sid entry :
    settlements s !! sid = Some entry -> bridgedAt entry <> 0 ->
    effect keccak256 s
      (set_settlements (<[sid := set_status DISPUTED entry]> (settlements s)) s)
| effect_setOperator a : effect keccak256 s (set_bridgeOperator a s)
| effect_setAllocation r l e st :
    r + l + e + st = 10000 ->
    effect keccak256 s
      (set_allocation {| reserveBps := r; liquidityBps := l;
                         enterpriseBps := e; stakingBps := st |} s)
| effect_setPaused b : effect keccak256 s (set_paused b s)
| effect_setOwner a : effect keccak256 s (set_owner a s)
| effect_token t : effect keccak256 s (set_nbptToken t s).

(** Every stored settlement was filed under an identifier made from a nonce
    already drawn, and none is PENDING. *)
Definition settlementsWellFormed (keccak256 : list byte -> bytes32) (s : State) : Prop :=
  _settlementNonce s <= MAX_UINT256 /\
  forall sid e, settlements s !! sid = Some e ->
    status e <> PENDING /\
    exists i ts cid n,
      n <= _settlementNonce s /\ sid = keccak256 (settlementPreimage i ts cid n).

(** Two records that differ at most in their status. *)
Definition sameButStatus (e e' : RevenueEntry) : Prop :=
  e' = set_status (status e') e.

(** The sum of an account's balances over the four partitions. *)
Definition totalBalance (t : TokenStore) (a : address) : N :=
  balanceOfByPartition t PARTITION_RESERVE a + balanceOfByPartition t PARTITION_LIQUIDITY a
  + balanceOfByPartition t PARTITION_ENTERPRISE a + balanceOfByPartition t PARTITION_STAKING a.

(** The sum of the amounts of all recorded settlements. *)
Definition amountSum (m : gmap bytes32 RevenueEntry) : N :=
  map_fold (fun _ e acc => acc + amount e) 0 m.

(** ** Checked arithmetic and the allocation calculator *)

Lemma checked_add_ok a b : a + b <= MAX_UINT256 -> checked_add a b = Ok (a + b).
Proof. intros H. unfold checked_add. by apply N.leb_le in H as ->. Qed.

Lemma checked_add_inv a b c : checked_add a b = Ok c -> c = a + b /\ c <= MAX_UINT256.
Proof.
  unfold checked_add. destruct (N.leb_spec (a + b) MAX_UINT256); [|done].
  intros [= <-]. done.
Qed.

Lemma checked_sub_ok a b : b <= a -> checked_sub a b = Ok (a - b).
Proof. intros H. unfold checked_sub. by apply N.leb_le in H as ->. Qed.

Lemma checked_sub_inv a b c : checked_sub a b = Ok c -> b <= a /\ c = a - b.
Proof.
  unfold checked_sub. destruct (N.leb_spec b a); [|done].
  intros [= <-]. done.
Qed.

Lemma checked_mul_ok a b : a * b <= MAX_UINT256 -> checked_mul a b = Ok (a * b).
Proof. intros H. unfold checked_mul. by apply N.leb_le in H as ->. Qed.

Lemma checked_mul_overflow a b : MAX_UINT256 < a * b -> checked_mul a b = Revert (Panic 17).
Proof. intros H. unfold checked_mul. by apply N.leb_gt in H as ->. Qed.

Lemma checked_div_basis a : checked_div a BASIS_POINTS = Ok (a / 10000).
Proof. reflexivity. Qed.

Lemma three_le (x y z a : N) :
  x + y + z <= a -> x <= a /\ y <= a - x /\ z <= a - x - y.
Proof. lia. Qed.

(** Three truncated shares never exceed the whole. *)
Lemma shares_le_amount (a rb lb eb : N) :
  rb + lb + eb <= 10000 ->
  a * rb / 10000 + a * lb / 10000 + a * eb / 10000 <= a.
Proof.
  intros Hsum.
  assert (a * rb + a * lb + a * eb <= a * 10000) by nia.
  pose proof (N.Div0.mul_div_le (a * rb) 10000).
  pose proof (N.Div0.mul_div_le (a * lb) 10000).
  pose proof (N.Div0.mul_div_le (a * eb) 10000).
  lia.
Qed.

(** Whatever the configuration, a split that is returned loses no dust. *)
Lemma _calculateAllocations_inv cfg a r l e st :
  _calculateAllocations cfg a = Ok (r, l, e, st) ->
  r = a * reserveBps cfg / 10000 /\ l = a * liquidityBps cfg / 10000 /\
  e = a * enterpriseBps cfg / 10000 /\ r + l + e + st = a.
Proof.
  unfold _calculateAllocations. intros H.
  repeat match type of H with
         | bindR ?x _ = Ok _ =>
             let E := fresh "E" in
             destruct x eqn:E; [cbn [bindR] in H | discriminate H]
         end.
  injection H as <- <- <- <-.
  unfold checked_mul in *. repeat case_match; try discriminate. simplify_eq.
  rewrite checked_div_basis in *. simplify_eq.
  repeat match goal with
         | E : checked_sub _ _ = Ok _ |- _ => apply checked_sub_inv in E as [? ?]
         end.
  subst. repeat split; lia.
Qed.

Lemma _calculateAllocations_ok cfg a :
  reserveBps cfg + liquidityBps cfg + enterpriseBps cfg <= 10000 ->
  a * reserveBps cfg <= MAX_UINT256 ->
  a * liquidityBps cfg <= MAX_UINT256 ->
  a * enterpriseBps cfg <= MAX_UINT256 ->
  _calculateAllocations cfg a =
    Ok (a * reserveBps cfg / 10000, a * liquidityBps cfg / 10000,
        a * enterpriseBps cfg / 10000,
        a - a * reserveBps cfg / 10000 - a * liquidityBps cfg / 10000
          - a * enterpriseBps cfg / 10000).
Proof.
  intros Hsum H1 H2 H3. pose proof (shares_le_amount a _ _ _ Hsum).
  unfold _calculateAllocations.
  do 3 (rewrite checked_mul_ok by done; cbn [bindR];
        rewrite checked_div_basis; cbn [bindR]).
  destruct (three_le _ _ _ _ H) as (? & ? & ?).
  do 3 (rewrite checked_sub_ok by assumption; cbn [bindR]).
  reflexivity.
Qed.

(** C1 (as amended): for every amount and every state whose four weights sum
    to 10000, provided none of the three products [amount * bps] overflows
    256 bits, [calculateAllocations] returns the three truncated shares
    [amount * bps / 10000] and the remainder for staking, and the four add up
    to [amount] exactly; 99 under the default weights splits as 39/29/19/12,
    and 0 splits as four zeros under any weights. *)
Theorem calculateAllocations_no_dust :
  (forall (s : State) (_amount : uint256),
     reserveBps (allocation s) + liquidityBps (allocation s)
       + enterpriseBps (allocation s) + stakingBps (allocation s) = 10000 ->
     _amount * reserveBps (allocation s) <= MAX_UINT256 ->
     _amount * liquidityBps (allocation s) <= MAX_UINT256 ->
     _amount * enterpriseBps (allocation s) <= MAX_UINT256 ->
     exists reserveAmt liquidityAmt enterpriseAmt stakingAmt,
       calculateAllocations s _amount
         = Ok (reserveAmt, liquidityAmt, enterpriseAmt, stakingAmt) /\
       reserveAmt = _amount * reserveBps (allocation s) / 10000 /\
       liquidityAmt = _amount * liquidityBps (allocation s) / 10000 /\
       enterpriseAmt = _amount * enterpriseBps (allocation s) / 10000 /\
       reserveAmt + liquidityAmt + enterpriseAmt <= _amount /\
       stakingAmt = _amount - reserveAmt - liquidityAmt - enterpriseAmt /\
       reserveAmt + liquidityAmt + enterpriseAmt + stakingAmt = _amount) /\
  (forall s : State, allocation s = defaultAllocation ->
     calculateAllocations s 99 = Ok (39, 29, 19, 12)) /\
  (forall s : State, calculateAllocations s 0 = Ok (0, 0, 0, 0)).
Proof.
  split; [|split].
  - intros s a Hsum H1 H2 H3.
    assert (Hle : reserveBps (allocation s) + liquidityBps (allocation s)
                  + enterpriseBps (allocation s) <= 10000) by lia.
    pose proof (shares_le_amount a _ _ _ Hle).
    eexists _, _, _, _. split.
    { unfold calculateAllocations. by apply _calculateAllocations_ok. }
    destruct (three_le _ _ _ _ H) as (? & ? & ?).
    repeat split; try reflexivity; [done|].
    revert H. generalize (a * reserveBps (allocation s) / 10000)
      (a * liquidityBps (allocation s) / 10000)
      (a * enterpriseBps (allocation s) / 10000). lia.
  - intros s Hs. unfold calculateAllocations. rewrite Hs. reflexivity.
  - intros s. reflexivity.
Qed.

(** C1 fails as stated: under the default weights, which sum to 10000, the
    amount [2^256 - 1] makes the first product overflow and the call panic. *)
Lemma calculateAllocations_overflow_counterexample :
  reserveBps defaultAllocation + liquidityBps defaultAllocation
    + enterpriseBps defaultAllocation + stakingBps defaultAllocation = 10000 /\
  calculateAllocations Scenario.genesis (2 ^ 256 - 1) = Revert (Panic 17) /\
  ~ (forall (s : State) (_amount : uint256),
       reserveBps (allocation s) + liquidityBps (allocation s)
         + enterpriseBps (allocation s) + stakingBps (allocation s) = 10000 ->
       exists r l e st, calculateAllocations s _amount = Ok (r, l, e, st)
                        /\ r + l + e + st = _amount).
Proof.
  split; [reflexivity|]. split; [vm_compute; reflexivity|].
  intros H. destruct (H Scenario.genesis (2 ^ 256 - 1)) as (r & l & e & st & Hc & _).
  { reflexivity. }
  vm_compute in Hc. discriminate.
Qed.

Lemma calculateAllocations_no_dust_witness :
  exists reserveAmt liquidityAmt enterpriseAmt stakingAmt,
    calculateAllocations Scenario.genesis 1000001
      = Ok (reserveAmt, liquidityAmt, enterpriseAmt, stakingAmt) /\
    reserveAmt = 1000001 * 4000 / 10000 /\
    liquidityAmt = 1000001 * 3000 / 10000 /\
    enterpriseAmt = 1000001 * 2000 / 10000 /\
    reserveAmt + liquidityAmt + enterpriseAmt <= 1000001 /\
    stakingAmt = 1000001 - reserveAmt - liquidityAmt - enterpriseAmt /\
    reserveAmt + liquidityAmt + enterpriseAmt + stakingAmt = 1000001.
Proof.
  apply (proj1 calculateAllocations_no_dust Scenario.genesis 1000001);
    vm_compute; congruence.
Defined.

(** ** Single calls *)

Section Calls.

Variable keccak256 : list byte -> bytes32.

Lemma onlyOperator_authorized {A} env (body : M A) s :
  authorized env s -> onlyOperator env body s = body s.
Proof.
  unfold authorized, onlyOperator. intros [H|H]; rewrite H, N.eqb_refl; cbn;
    [done | by rewrite andb_false_r].
Qed.

Lemma onlyOperator_unauthorized {A} env (body : M A) s :
  ~ authorized env s -> onlyOperator env body s = Revert Unauthorized.
Proof.
  unfold authorized, onlyOperator. intros H.
  destruct (N.eqb_spec (msg_sender env) (bridgeOperator s)); [tauto|].
  destruct (N.eqb_spec (msg_sender env) (owner s)); [tauto|]. done.
Qed.

Lemma authorized_dec env s : authorized env s \/ ~ authorized env s.
Proof.
  unfold authorized.
  destruct (N.eqb_spec (msg_sender env) (bridgeOperator s)); [tauto|].
  destruct (N.eqb_spec (msg_sender env) (owner s)); tauto.
Qed.

Lemma transact_revert env c s e :
  dispatch keccak256 env c s = Revert e -> transact keccak256 env c s = s.
Proof. unfold transact. by intros ->. Qed.

Lemma dispatch_bridgeRevenue_revert env i a p b cur src dst s e :
  bridgeRevenue keccak256 env i a p b cur src dst s = Revert e ->
  dispatch keccak256 env (CallBridgeRevenue i a p b cur src dst) s = Revert e.
Proof. unfold dispatch, bind. by intros ->. Qed.

Lemma dispatch_bridgeStripeRevenue_revert env i a b s e :
  bridgeStripeRevenue keccak256 env i a b s = Revert e ->
  dispatch keccak256 env (CallBridgeStripeRevenue i a b) s = Revert e.
Proof. unfold dispatch, bind. by intros ->. Qed.

(** The duplicate check of [bridgeRevenue], reached by a caller that passed
    the modifiers and the two argument checks. *)
Lemma bridgeRevenue_duplicate env s i a p b cur src dst :
  isInvoiceProcessed keccak256 s i = true ->
  authorized env s -> reentrancyEntered s = false -> paused s = false ->
  a <> 0 -> b <> 0 ->
  bridgeRevenue keccak256 env i a p b cur src dst s = Revert (InvoiceAlreadyProcessed i).
Proof.
  intros Hdup Hauth Hent Hp Ha Hb. unfold bridgeRevenue.
  rewrite onlyOperator_authorized by done.
  unfold nonReentrant. rewrite Hent. unfold whenNotPaused. cbn [paused set_reentrancyEntered].
  rewrite Hp. apply N.eqb_neq in Ha as ->. apply N.eqb_neq in Hb as ->.
  unfold bind, get. cbn [invoiceToSettlement set_reentrancyEntered].
  unfold isInvoiceProcessed in Hdup. rewrite Hdup. reflexivity.
Qed.

(** Once an invoice is indexed, no caller whatsoever gets [bridgeRevenue]
    to succeed on it. *)
Lemma bridgeRevenue_duplicate_never_ok env s i a p b cur src dst :
  isInvoiceProcessed keccak256 s i = true ->
  exists e, bridgeRevenue keccak256 env i a p b cur src dst s = Revert e.
Proof.
  intros Hdup. unfold bridgeRevenue, onlyOperator, nonReentrant, whenNotPaused.
  destruct (_ && _); [by eexists|].
  destruct (reentrancyEntered s); [by eexists|]. cbn [paused set_reentrancyEntered].
  destruct (paused s); [by eexists|].
  destruct (a =? 0); [by eexists|]. destruct (b =? 0); [by eexists|].
  unfold bind, get. cbn [invoiceToSettlement set_reentrancyEntered].
  unfold isInvoiceProcessed in Hdup. rewrite Hdup. by eexists.
Qed.

(** C2: in every state where the invoice is already mapped to a settlement,
    [bridgeRevenue] on that invoice by the operator or the owner, not paused,
    with a non-zero amount and beneficiary, fails with
    [InvoiceAlreadyProcessed] carrying the invoice, and the transaction leaves
    the whole state (totals, settlements, invoice index, partition balances)
    as it was. *)
Theorem bridgeRevenue_idempotent env s _invoiceId _amount _payer _beneficiary
    _currency _sourceSystem _destinationSystem :
  getSettlementByInvoice keccak256 s _invoiceId <> 0 ->
  authorized env s -> reentrancyEntered s = false -> paused s = false ->
  _amount <> 0 -> _beneficiary <> 0 ->
  bridgeRevenue keccak256 env _invoiceId _amount _payer _beneficiary _currency
      _sourceSystem _destinationSystem s
    = Revert (InvoiceAlreadyProcessed _invoiceId) /\
  transact keccak256 env
      (CallBridgeRevenue _invoiceId _amount _payer _beneficiary _currency
         _sourceSystem _destinationSystem) s = s.
Proof.
  intros Hmapped Hauth Hent Hp Ha Hb.
  assert (Hdup : isInvoiceProcessed keccak256 s _invoiceId = true).
  { unfold isInvoiceProcessed, getSettlementByInvoice in *.
    by apply N.eqb_neq in Hmapped as ->. }
  pose proof (bridgeRevenue_duplicate env s _invoiceId _amount _payer _beneficiary
                _currency _sourceSystem _destinationSystem Hdup Hauth Hent Hp Ha Hb) as Hrev.
  split; [done|].
  eapply transact_revert, dispatch_bridgeRevenue_revert, Hrev.
Qed.

(** *** The convenience variant *)

(** The inner [this.bridgeRevenue] runs with the reentrancy lock already
    taken by [bridgeStripeRevenue], and with the bridge itself as caller:
    whichever of the two modifiers fires, the call cannot return. *)
Lemma bridgeStripeRevenue_reverts env i a b s :
  exists e, bridgeStripeRevenue keccak256 env i a b s = Revert e.
Proof.
  unfold bridgeStripeRevenue.
  unfold onlyOperator at 1. destruct (_ && _); [by eexists|].
  unfold nonReentrant at 1. destruct (reentrancyEntered s); [by eexists|].
  unfold whenNotPaused at 1. cbn [paused set_reentrancyEntered].
  destruct (paused s); [by eexists|].
  unfold bind at 1, get. unfold bridgeRevenue, onlyOperator.
  destruct (_ && _); [by eexists|].
  unfold nonReentrant. cbn [reentrancyEntered set_reentrancyEntered]. by eexists.
Qed.

Lemma bridgeStripeRevenue_error env i a b s :
  authorized env s -> reentrancyEntered s = false -> paused s = false ->
  bridgeStripeRevenue keccak256 env i a b s =
    Revert (if negb (this s =? bridgeOperator s) && negb (this s =? owner s)
            then Unauthorized else ReentrancyGuardReentrantCall).
Proof.
  intros Hauth Hent Hp. unfold bridgeStripeRevenue.
  rewrite onlyOperator_authorized by done.
  unfold nonReentrant at 1. rewrite Hent.
  unfold whenNotPaused at 1. cbn [paused set_reentrancyEntered]. rewrite Hp.
  unfold bind at 1, get. unfold bridgeRevenue, onlyOperator.
  cbn [msg_sender bridgeOperator owner set_reentrancyEntered].
  destruct (_ && _); [done|].
  unfold nonReentrant. cbn [reentrancyEntered set_reentrancyEntered]. done.
Qed.

(** *** Reversal and dispute *)

Lemma reverseSettlement_checks env sid reason s :
  authorized env s -> reentrancyEntered s = false -> paused s = false ->
  status (getSettlement s sid) <> SETTLED ->
  reverseSettlement env sid reason s =
    Revert (if bridgedAt (getSettlement s sid) =? 0 then SettlementNotFound sid
            else InvalidSettlementStatus sid (status (getSettlement s sid)) SETTLED).
Proof.
  intros Hauth Hent Hp Hst. unfold reverseSettlement.
  rewrite onlyOperator_authorized by done.
  unfold nonReentrant. rewrite Hent. unfold whenNotPaused.
  cbn [paused set_reentrancyEntered]. rewrite Hp.
  unfold bind, get. cbn [settlements set_reentrancyEntered].
  unfold getSettlement in *.
  destruct (bridgedAt _ =? 0); [done|].
  rewrite bool_decide_eq_false_2 by done. done.
Qed.

Lemma reverseSettlement_not_settled_reverts env sid reason s :
  status (getSettlement s sid) <> SETTLED ->
  exists e, reverseSettlement env sid reason s = Revert e.
Proof.
  intros Hst. unfold reverseSettlement, onlyOperator, nonReentrant, whenNotPaused.
  destruct (_ && _); [by eexists|].
  destruct (reentrancyEntered s); [by eexists|]. cbn [paused set_reentrancyEntered].
  destruct (paused s); [by eexists|].
  unfold bind, get. cbn [settlements set_reentrancyEntered].
  unfold getSettlement in *.
  destruct (bridgedAt _ =? 0); [by eexists|].
  rewrite bool_decide_eq_false_2 by done. by eexists.
Qed.

(** C7: on a settlement whose status is not SETTLED (one already REVERSED,
    say), [reverseSettlement] fails with [InvalidSettlementStatus] reporting
    the current status and the required SETTLED, and no balance, total or
    record changes; on an unknown identifier it fails with
    [SettlementNotFound]. *)
Theorem reverseSettlement_rejects_unsettled env s _settlementId _reason :
  status (getSettlement s _settlementId) <> SETTLED ->
  (authorized env s -> reentrancyEntered s = false -> paused s = false ->
     (bridgedAt (getSettlement s _settlementId) <> 0 ->
        reverseSettlement env _settlementId _reason s
          = Revert (InvalidSettlementStatus _settlementId
                      (status (getSettlement s _settlementId)) SETTLED)) /\
     (bridgedAt (getSettlement s _settlementId) = 0 ->
        reverseSettlement env _settlementId _reason s
          = Revert (SettlementNotFound _settlementId)) /\
     (settlements s !! _settlementId = None ->
        reverseSettlement env _settlementId _reason s
          = Revert (SettlementNotFound _settlementId))) /\
  (exists e, reverseSettlement env _settlementId _reason s = Revert e) /\
  transact keccak256 env (CallReverseSettlement _settlementId _reason) s = s.
Proof.
  intros Hst. split; [|split].
  - intros Hauth Hent Hp.
    pose proof (reverseSettlement_checks env _settlementId _reason s Hauth Hent Hp Hst) as Hr.
    repeat split.
    + intros Hb. apply N.eqb_neq in Hb. by rewrite Hb in Hr.
    + intros Hb. apply N.eqb_eq in Hb. by rewrite Hb in Hr.
    + intros Hnone. unfold getSettlement in Hr. by rewrite Hnone in Hr.
  - by apply reverseSettlement_not_settled_reverts.
  - destruct (reverseSettlement_not_settled_reverts env _settlementId _reason s Hst) as [e He].
    eapply transact_revert. cbn [dispatch]. exact He.
Qed.

(** *** The circuit breaker *)

Lemma bridgeRevenue_paused env s i a p b cur src dst :
  paused s = true -> authorized env s -> reentrancyEntered s = false ->
  bridgeRevenue keccak256 env i a p b cur src dst s = Revert EnforcedPause.
Proof.
  intros Hp Hauth Hent. unfold bridgeRevenue. rewrite onlyOperator_authorized by done.
  unfold nonReentrant. rewrite Hent. unfold whenNotPaused.
  cbn [paused set_reentrancyEntered]. by rewrite Hp.
Qed.

Lemma bridgeStripeRevenue_paused env s i a b :
  paused s = true -> authorized env s -> reentrancyEntered s = false ->
  bridgeStripeRevenue keccak256 env i a b s = Revert EnforcedPause.
Proof.
  intros Hp Hauth Hent. unfold bridgeStripeRevenue. rewrite onlyOperator_authorized by done.
  unfold nonReentrant. rewrite Hent. unfold whenNotPaused.
  cbn [paused set_reentrancyEntered]. by rewrite Hp.
Qed.

Lemma reverseSettlement_paused env s sid reason :
  paused s = true -> authorized env s -> reentrancyEntered s = false ->
  reverseSettlement env sid reason s = Revert EnforcedPause.
Proof.
  intros Hp Hauth Hent. unfold reverseSettlement. rewrite onlyOperator_authorized by done.
  unfold nonReentrant. rewrite Hent. unfold whenNotPaused.
  cbn [paused set_reentrancyEntered]. by rewrite Hp.
Qed.

(** C5 (as amended): while the contract is paused, the operator actions that
    carry [whenNotPaused] -- [bridgeRevenue], [bridgeStripeRevenue] and
    [reverseSettlement] -- fail with [EnforcedPause] (the specification's
    OperationPaused) and their transactions change no state, while the
    read-only queries answer exactly as they do in the unpaused state. *)
Theorem paused_blocks_bridging env s :
  paused s = true -> authorized env s -> reentrancyEntered s = false ->
  (forall i a p b cur src dst,
     bridgeRevenue keccak256 env i a p b cur src dst s = Revert EnforcedPause /\
     transact keccak256 env (CallBridgeRevenue i a p b cur src dst) s = s) /\
  (forall i a b,
     bridgeStripeRevenue keccak256 env i a b s = Revert EnforcedPause /\
     transact keccak256 env (CallBridgeStripeRevenue i a b) s = s) /\
  (forall sid reason,
     reverseSettlement env sid reason s = Revert EnforcedPause /\
     transact keccak256 env (CallReverseSettlement sid reason) s = s) /\
  (forall sid i,
     getSettlement s sid = getSettlement (set_paused false s) sid /\
     getSettlementByInvoice keccak256 s i
       = getSettlementByInvoice keccak256 (set_paused false s) i /\
     isInvoiceProcessed keccak256 s i = isInvoiceProcessed keccak256 (set_paused false s) i /\
     totalRevenueBridged s = totalRevenueBridged (set_paused false s) /\
     totalRevenueReversed s = totalRevenueReversed (set_paused false s) /\
     netRevenue s = netRevenue (set_paused false s)).
Proof.
  intros Hp Hauth Hent. repeat split.
  - by apply bridgeRevenue_paused.
  - eapply transact_revert, dispatch_bridgeRevenue_revert. by apply bridgeRevenue_paused.
  - by apply bridgeStripeRevenue_paused.
  - eapply transact_revert, dispatch_bridgeStripeRevenue_revert.
    by apply bridgeStripeRevenue_paused.
  - by apply reverseSettlement_paused.
  - eapply transact_revert. cbn [dispatch]. by apply reverseSettlement_paused.
Qed.

(** *** Allocation weights *)

Lemma setAllocation_ok_inv env r l e st s u s' :
  setAllocation env r l e st s = Ok (u, s') ->
  msg_sender env = owner s /\ r + l + e + st = 10000 /\
  s' = set_allocation {| reserveBps := r; liquidityBps := l;
                         enterpriseBps := e; stakingBps := st |} s.
Proof.
  unfold setAllocation, onlyOwner, bind, lift, modify, revert.
  destruct (N.eqb_spec (owner s) (msg_sender env)); [|done]. cbn [negb].
  destruct (checked_add r l) as [s1|] eqn:E1; [|done].
  destruct (checked_add s1 e) as [s2|] eqn:E2; [|done].
  destruct (checked_add s2 st) as [s3|] eqn:E3; [|done].
  apply checked_add_inv in E1 as [-> _], E2 as [-> _], E3 as [-> _].
  destruct (N.eqb_spec (r + l + e + st) BASIS_POINTS) as [Heq|]; [|done].
  cbn [negb]. intros [= <- <-]. done.
Qed.

Lemma setAllocation_rejects env r l e st s :
  r + l + e + st <> 10000 ->
  exists err, setAllocation env r l e st s = Revert err.
Proof.
  intros Hne. destruct (setAllocation env r l e st s) as [[u s']|err] eqn:E; [|by eexists].
  apply setAllocation_ok_inv in E as (_ & ? & _). done.
Qed.

Lemma setAllocation_invalid env r l e st s :
  msg_sender env = owner s -> r + l + e + st <> 10000 ->
  r + l + e + st <= MAX_UINT256 ->
  setAllocation env r l e st s = Revert InvalidPercentages.
Proof.
  intros Hown Hne Hle.
  unfold setAllocation, onlyOwner, bind, lift, modify, revert.
  rewrite Hown, N.eqb_refl. cbn [negb].
  rewrite (checked_add_ok r l) by lia.
  rewrite (checked_add_ok (r + l) e) by lia.
  rewrite (checked_add_ok (r + l + e) st) by lia.
  apply N.eqb_neq in Hne. unfold BASIS_POINTS. by rewrite Hne.
Qed.

Lemma setAllocation_overflow env r l e st s :
  msg_sender env = owner s -> MAX_UINT256 < r + l + e + st ->
  setAllocation env r l e st s = Revert (Panic 17).
Proof.
  intros Hown Hgt.
  unfold setAllocation, onlyOwner, bind, lift, modify, revert.
  rewrite Hown, N.eqb_refl. cbn [negb].
  unfold checked_add.
  destruct (N.leb_spec (r + l) MAX_UINT256); [|done].
  destruct (N.leb_spec (r + l + e) MAX_UINT256); [|done].
  destruct (N.leb_spec (r + l + e + st) MAX_UINT256); [lia|done].
Qed.

(** *** What the token calls of the bridge do to balances *)

Lemma balanceOf_insert t p a v p' a' :
  balanceOfByPartition {| balances := <[(p, a) := v]> (balances t) |} p' a'
  = if decide (p' = p /\ a' = a) then v else balanceOfByPartition t p' a'.
Proof.
  unfold balanceOfByPartition. cbn [balances].
  destruct (decide (p' = p /\ a' = a)) as [[-> ->]|Hne].
  - by rewrite lookup_insert_eq.
  - rewrite lookup_insert_ne; [done|]. intros [= -> ->]. tauto.
Qed.

Lemma issueToPartition_inv p a amt t t' :
  issueToPartition p a amt t = Ok t' ->
  forall p' a', balanceOfByPartition t' p' a'
    = balanceOfByPartition t p' a' + (if decide (p' = p /\ a' = a) then amt else 0).
Proof.
  unfold issueToPartition. destruct (checked_add _ _) as [b|] eqn:E; [|done].
  cbn [bindR]. intros [= <-] p' a'. apply checked_add_inv in E as [-> _].
  rewrite balanceOf_insert. destruct (decide _) as [[-> ->]|]; lia.
Qed.

Lemma burnFromPartition_inv p a amt t t' :
  burnFromPartition p a amt t = Ok t' ->
  forall p' a', balanceOfByPartition t' p' a' + (if decide (p' = p /\ a' = a) then amt else 0)
    = balanceOfByPartition t p' a'.
Proof.
  unfold burnFromPartition. destruct (N.ltb_spec (balanceOfByPartition t p a) amt); [done|].
  intros [= <-] p' a'. rewrite balanceOf_insert.
  destruct (decide _) as [[-> ->]|]; lia.
Qed.

Lemma set_nbptToken_id s : set_nbptToken (nbptToken s) s = s.
Proof. by destruct s. Qed.

Lemma when_issue_inv p a amt s u s' :
  when_ (0 <? amt) (token_call (issueToPartition p a amt)) s = Ok (u, s') ->
  exists t', s' = set_nbptToken t' s /\
    forall p' a', balanceOfByPartition t' p' a'
      = balanceOfByPartition (nbptToken s) p' a'
        + (if decide (p' = p /\ a' = a) then amt else 0).
Proof.
  unfold when_, token_call, ret. destruct (N.ltb_spec 0 amt) as [Hpos|Hz].
  - destruct (issueToPartition _ _ _ _) as [t'|] eqn:E; [|done].
    intros [= <- <-]. exists t'. split; [done|]. by apply issueToPartition_inv.
  - intros [= <- <-]. exists (nbptToken s). rewrite set_nbptToken_id. split; [done|].
    intros p' a'. assert (amt = 0) as -> by lia. destruct (decide _); lia.
Qed.

Lemma when_burn_inv p a amt s u s' :
  when_ (0 <? amt) (token_call (burnFromPartition p a amt)) s = Ok (u, s') ->
  exists t', s' = set_nbptToken t' s /\
    forall p' a', balanceOfByPartition t' p' a'
        + (if decide (p' = p /\ a' = a) then amt else 0)
      = balanceOfByPartition (nbptToken s) p' a'.
Proof.
  unfold when_, token_call, ret. destruct (N.ltb_spec 0 amt) as [Hpos|Hz].
  - destruct (burnFromPartition _ _ _ _) as [t'|] eqn:E; [|done].
    intros [= <- <-]. exists t'. split; [done|]. by apply burnFromPartition_inv.
  - intros [= <- <-]. exists (nbptToken s). rewrite set_nbptToken_id. split; [done|].
    intros p' a'. assert (amt = 0) as -> by lia. destruct (decide _); lia.
Qed.

Lemma bind_ok_inv {A B} (m : M A) (k : A -> M B) s b s' :
  bind m k s = Ok (b, s') ->
  exists a s1, m s = Ok (a, s1) /\ k a s1 = Ok (b, s').
Proof.
  unfold bind. destruct (m s) as [[a s1]|]; [|done]. intros H. by exists a, s1.
Qed.

(** A successful issuance credits the recipient with each share, and
    nobody else with anything. *)
Lemma _issueToPartitions_inv sid a r l e st s u s' :
  _issueToPartitions sid a r l e st s = Ok (u, s') ->
  exists t', s' = set_nbptToken t' s /\
    forall p a', balanceOfByPartition t' p a'
      = balanceOfByPartition (nbptToken s) p a'
        + (if decide (a' = a) then shareOf (r, l, e, st) p else 0).
Proof.
  unfold _issueToPartitions. intros H.
  apply bind_ok_inv in H as (? & s1 & H1 & H).
  apply bind_ok_inv in H as (? & s2 & H2 & H).
  apply bind_ok_inv in H as (? & s3 & H3 & H4).
  apply when_issue_inv in H1 as (t1 & -> & B1).
  apply when_issue_inv in H2 as (t2 & -> & B2).
  apply when_issue_inv in H3 as (t3 & -> & B3).
  apply when_issue_inv in H4 as (t4 & -> & B4).
  cbn [nbptToken set_nbptToken] in *.
  exists t4. split; [done|]. intros p a'.
  rewrite B4, B3, B2, B1. cbn [shareOf].
  destruct (decide (a' = a)) as [->|Hne]; destruct p;
    repeat (destruct (decide _) as [[? ?]|?]; try discriminate; try tauto); lia.
Qed.

(** A successful burn debits the account by each share, and nobody else. *)
Lemma _burnFromPartitions_inv a r l e st s u s' :
  _burnFromPartitions a r l e st s = Ok (u, s') ->
  exists t', s' = set_nbptToken t' s /\
    forall p a', balanceOfByPartition t' p a'
        + (if decide (a' = a) then shareOf (r, l, e, st) p else 0)
      = balanceOfByPartition (nbptToken s) p a'.
Proof.
  unfold _burnFromPartitions. intros H.
  apply bind_ok_inv in H as (? & s1 & H1 & H).
  apply bind_ok_inv in H as (? & s2 & H2 & H).
  apply bind_ok_inv in H as (? & s3 & H3 & H4).
  apply when_burn_inv in H1 as (t1 & -> & B1).
  apply when_burn_inv in H2 as (t2 & -> & B2).
  apply when_burn_inv in H3 as (t3 & -> & B3).
  apply when_burn_inv in H4 as (t4 & -> & B4).
  cbn [nbptToken set_nbptToken] in *.
  exists t4. split; [done|]. intros p a'.
  rewrite <- B1, <- B2, <- B3, <- B4. cbn [shareOf].
  destruct (decide (a' = a)) as [->|Hne]; destruct p;
    repeat (destruct (decide _) as [[? ?]|?]; try discriminate; try tauto); lia.
Qed.

(** *** What a successful call has checked and done *)

Lemma _generateSettlementId_inv env i s sid s' :
  _generateSettlementId keccak256 env i s = Ok (sid, s') ->
  _settlementNonce s + 1 <= MAX_UINT256 /\
  sid = keccak256 (settlementPreimage i (block_timestamp env) (block_chainid env)
                     (_settlementNonce s + 1)) /\
  s' = set_settlementNonce (_settlementNonce s + 1) s.
Proof.
  unfold _generateSettlementId, bind, get, lift, modify, ret.
  destruct (checked_add _ 1) as [n|] eqn:E; [|done].
  apply checked_add_inv in E as [-> ?]. intros [= <- <-]. done.
Qed.

Lemma bridgeRevenue_ok_inv env i a p b cur src dst s sid s' :
  bridgeRevenue keccak256 env i a p b cur src dst s = Ok (sid, s') ->
  authorized env s /\ reentrancyEntered s = false /\ paused s = false /\
  a <> 0 /\ b <> 0 /\
  isInvoiceProcessed keccak256 s i = false /\
  _settlementNonce s + 1 <= MAX_UINT256 /\
  sid = keccak256 (settlementPreimage i (block_timestamp env) (block_chainid env)
                     (_settlementNonce s + 1)) /\
  totalRevenueBridged s + a <= MAX_UINT256 /\
  exists split t',
    _calculateAllocations (allocation s) a = Ok split /\
    (forall q a', balanceOfByPartition t' q a'
       = balanceOfByPartition (nbptToken s) q a'
         + (if decide (a' = b) then shareOf split q else 0)) /\
    s' = afterBridge s (keccak256 (encode_string i)) sid
           (entryOf env i a p b cur src dst sid) t'.
Proof.
  unfold bridgeRevenue. intros H.
  destruct (authorized_dec env s) as [Hauth|Hn];
    [rewrite onlyOperator_authorized in H by done
    |rewrite onlyOperator_unauthorized in H by done; discriminate].
  unfold nonReentrant in H. destruct (reentrancyEntered s) eqn:Hent; [discriminate|].
  match type of H with
  | match ?body ?st with _ => _ end = _ => destruct (body st) as [[x s1]|] eqn:Hbody
  end; [|discriminate].
  injection H as -> <-.
  unfold whenNotPaused in Hbody. cbn [paused set_reentrancyEntered] in Hbody.
  destruct (paused s) eqn:Hp; [discriminate|].
  destruct (N.eqb_spec a 0) as [|Ha]; [discriminate|].
  destruct (N.eqb_spec b 0) as [|Hb]; [discriminate|].
  apply bind_ok_inv in Hbody as (s0 & ? & Hget & Hbody). injection Hget as <- <-.
  cbn [invoiceToSettlement set_reentrancyEntered] in Hbody.
  destruct (negb _) eqn:Hdup; [discriminate|].
  apply bind_ok_inv in Hbody as (sid' & s2 & Hgen & Hbody).
  apply _generateSettlementId_inv in Hgen as (Hn & -> & ->).
  cbn [_settlementNonce set_reentrancyEntered] in *.
  apply bind_ok_inv in Hbody as (? & ? & Hget & Hbody). injection Hget as <- <-.
  apply bind_ok_inv in Hbody as (split & s3 & Hcalc & Hbody).
  unfold lift in Hcalc. cbn [allocation set_settlementNonce set_reentrancyEntered] in Hcalc.
  destruct (_calculateAllocations _ _) as [split'|] eqn:Hsplit; [|discriminate].
  injection Hcalc as <- <-. destruct split' as [[[r l] e] st].
  apply bind_ok_inv in Hbody as (? & ? & Hm & Hbody). injection Hm as <- <-.
  apply bind_ok_inv in Hbody as (? & ? & Hm & Hbody). injection Hm as <- <-.
  apply bind_ok_inv in Hbody as (? & ? & Hget & Hbody). injection Hget as <- <-.
  apply bind_ok_inv in Hbody as (total & s4 & Hadd & Hbody).
  unfold lift in Hadd.
  cbn [totalRevenueBridged set_invoiceToSettlement set_settlements
       set_settlementNonce set_reentrancyEntered] in Hadd.
  destruct (checked_add _ _) as [tot|] eqn:Htot; [|discriminate].
  injection Hadd as <- <-. apply checked_add_inv in Htot as [-> Htot].
  apply bind_ok_inv in Hbody as (? & ? & Hm & Hbody). injection Hm as <- <-.
  apply bind_ok_inv in Hbody as (? & s5 & Hissue & Hret). injection Hret as <- <-.
  apply _issueToPartitions_inv in Hissue as (t' & -> & Hbal).
  cbn [nbptToken set_totalRevenueBridged set_invoiceToSettlement set_settlements
       set_settlementNonce set_reentrancyEntered] in Hbal.
  split_and!; try done.
  exists (r, l, e, st), t'. split_and!; done.
Qed.

Lemma reverseSettlement_ok_inv env sid reason s u s' :
  reverseSettlement env sid reason s = Ok (u, s') ->
  authorized env s /\ reentrancyEntered s = false /\ paused s = false /\
  exists entry split t',
    settlements s !! sid = Some entry /\
    bridgedAt entry <> 0 /\ status entry = SETTLED /\
    totalRevenueReversed s + amount entry <= MAX_UINT256 /\
    _calculateAllocations (allocation s) (amount entry) = Ok split /\
    (forall q a', balanceOfByPartition t' q a'
         + (if decide (a' = beneficiary entry) then shareOf split q else 0)
       = balanceOfByPartition (nbptToken s) q a') /\
    s' = afterReverse s sid entry t'.
Proof.
  unfold reverseSettlement. intros H.
  destruct (authorized_dec env s) as [Hauth|Hn];
    [rewrite onlyOperator_authorized in H by done
    |rewrite onlyOperator_unauthorized in H by done; discriminate].
  unfold nonReentrant in H. destruct (reentrancyEntered s) eqn:Hent; [discriminate|].
  match type of H with
  | match ?body ?st with _ => _ end = _ => destruct (body st) as [[x s1]|] eqn:Hbody
  end; [|discriminate].
  injection H as -> <-.
  unfold whenNotPaused in Hbody. cbn [paused set_reentrancyEntered] in Hbody.
  destruct (paused s) eqn:Hp; [discriminate|].
  apply bind_ok_inv in Hbody as (s0 & ? & Hget & Hbody). injection Hget as <- <-.
  cbn [settlements set_reentrancyEntered] in Hbody.
  destruct (settlements s !! sid) as [entry|] eqn:Hentry; [|discriminate].
  cbn [default from_option id] in Hbody.
  destruct (N.eqb_spec (bridgedAt entry) 0) as [|Hb]; [discriminate|].
  destruct (decide (status entry = SETTLED)) as [Hst|Hst];
    [rewrite bool_decide_eq_true_2 in Hbody by done
    |rewrite bool_decide_eq_false_2 in Hbody by done; discriminate].
  cbn [negb] in Hbody.
  apply bind_ok_inv in Hbody as (? & ? & Hm & Hbody). injection Hm as <- <-.
  apply bind_ok_inv in Hbody as (? & ? & Hget & Hbody). injection Hget as <- <-.
  apply bind_ok_inv in Hbody as (total & s4 & Hadd & Hbody).
  unfold lift in Hadd.
  cbn [totalRevenueReversed set_settlements set_reentrancyEntered amount set_status] in Hadd.
  destruct (checked_add _ _) as [tot|] eqn:Htot; [|discriminate].
  injection Hadd as <- <-. apply checked_add_inv in Htot as [-> Htot].
  apply bind_ok_inv in Hbody as (? & ? & Hm & Hbody). injection Hm as <- <-.
  apply bind_ok_inv in Hbody as (? & ? & Hget & Hbody). injection Hget as <- <-.
  apply bind_ok_inv in Hbody as (split & s5 & Hcalc & Hbody).
  unfold lift in Hcalc.
  cbn [allocation set_totalRevenueReversed set_settlements set_reentrancyEntered
       amount set_status] in Hcalc.
  destruct (_calculateAllocations _ _) as [split'|] eqn:Hsplit; [|discriminate].
  injection Hcalc as <- <-. destruct split' as [[[r l] e] st].
  apply _burnFromPartitions_inv in Hbody as (t' & -> & Hbal).
  cbn [beneficiary set_status] in Hbal.
  cbn [nbptToken set_totalRevenueReversed set_settlements set_reentrancyEntered] in Hbal.
  split_and!; try done.
  exists entry, (r, l, e, st), t'. split_and!; done.
Qed.

Lemma disputeSettlement_ok_inv env sid s u s' :
  disputeSettlement env sid s = Ok (u, s') ->
  authorized env s /\
  exists entry,
    settlements s !! sid = Some entry /\ bridgedAt entry <> 0 /\
    s' = set_settlements (<[sid := set_status DISPUTED entry]> (settlements s)) s.
Proof.
  unfold disputeSettlement. intros H.
  destruct (authorized_dec env s) as [Hauth|Hn];
    [rewrite onlyOperator_authorized in H by done
    |rewrite onlyOperator_unauthorized in H by done; discriminate].
  apply bind_ok_inv in H as (s0 & ? & Hget & H). injection Hget as <- <-.
  destruct (settlements s !! sid) as [entry|] eqn:Hentry; [|discriminate].
  cbn [default from_option id] in H.
  destruct (N.eqb_spec (bridgedAt entry) 0) as [|Hb]; [discriminate|].
  injection H as <- <-. split; [done|]. by exists entry.
Qed.

Lemma setOperator_ok_inv env a s u s' :
  setOperator env a s = Ok (u, s') -> s' = set_bridgeOperator a s.
Proof.
  unfold setOperator, onlyOwner, modify, revert.
  destruct (negb _); [done|]. destruct (a =? 0); [done|]. by intros [= <- <-].
Qed.

Lemma pause_ok_inv env s u s' : pause env s = Ok (u, s') -> s' = set_paused true s.
Proof.
  unfold pause, onlyOwner, whenNotPaused, modify.
  destruct (negb _); [done|]. destruct (paused s); [done|]. by intros [= <- <-].
Qed.

Lemma unpause_ok_inv env s u s' : unpause env s = Ok (u, s') -> s' = set_paused false s.
Proof.
  unfold unpause, onlyOwner, whenPaused, modify.
  destruct (negb _); [done|]. destruct (paused s); [|done]. by intros [= <- <-].
Qed.

Lemma transferOwnership_ok_inv env a s u s' :
  transferOwnership env a s = Ok (u, s') -> s' = set_owner a s.
Proof.
  unfold transferOwnership, onlyOwner, modify, revert.
  destruct (negb _); [done|]. destruct (a =? 0); [done|]. by intros [= <- <-].
Qed.

Lemma renounceOwnership_ok_inv env s u s' :
  renounceOwnership env s = Ok (u, s') -> s' = set_owner 0 s.
Proof.
  unfold renounceOwnership, onlyOwner, modify.
  destruct (negb _); [done|]. by intros [= <- <-].
Qed.

End Calls.

(** ** Steps and their effects *)

Section Steps.

Variable keccak256 : list byte -> bytes32.

Lemma dispatch_effect env c s u s' :
  dispatch keccak256 env c s = Ok (u, s') -> effect keccak256 s s'.
Proof.
  destruct c; cbn [dispatch]; intros H.
  - apply bind_ok_inv in H as (sid & s1 & H & Hret).
    unfold ret in Hret. simplify_eq.
    apply bridgeRevenue_ok_inv in H
      as (? & ? & ? & ? & ? & ? & ? & ? & ? & split & t' & ? & ? & ->).
    by eapply effect_bridge.
  - apply bind_ok_inv in H as (sid & s1 & H & _).
    destruct (bridgeStripeRevenue_reverts keccak256 env _invoiceId _amount _beneficiary s)
      as [e He]. congruence.
  - apply reverseSettlement_ok_inv in H
      as (? & ? & ? & entry & split & t' & ? & ? & ? & ? & ? & ? & ->).
    by eapply effect_reverse.
  - apply disputeSettlement_ok_inv in H as (? & entry & ? & ? & ->).
    by eapply effect_dispute.
  - apply setOperator_ok_inv in H as ->. constructor.
  - apply setAllocation_ok_inv in H as (_ & ? & ->). by constructor.
  - apply pause_ok_inv in H as ->. constructor.
  - apply unpause_ok_inv in H as ->. constructor.
  - apply transferOwnership_ok_inv in H as ->. constructor.
  - apply renounceOwnership_ok_inv in H as ->. constructor.
Qed.

Lemma step_effect s s' : step keccak256 s s' -> s' = s \/ effect keccak256 s s'.
Proof.
  intros [env c s0|t s0].
  - unfold transact. destruct (dispatch keccak256 env c s0) as [[u s1]|] eqn:E; [|by left].
    right. by eapply dispatch_effect.
  - right. constructor.
Qed.

Lemma reachable_steps s s' :
  reachable keccak256 s -> rtc (step keccak256) s s' -> reachable keccak256 s'.
Proof. intros Hr Hs. induction Hs; [done|]. apply IHHs. by eapply reachable_step. Qed.

Lemma constructor_inv self token tk op ow s :
  constructor self token tk op ow = Ok s ->
  s = {| bridgeOperator := op; allocation := defaultAllocation;
         invoiceToSettlement := ∅; settlements := ∅;
         totalRevenueBridged := 0; totalRevenueReversed := 0;
         _settlementNonce := 0; owner := ow; paused := false;
         reentrancyEntered := false; this := self; nbptToken := token |}.
Proof.
  unfold constructor. repeat (destruct (_ =? 0); [done|]). by intros [= <-].
Qed.

(** An invariant of the reachable states is a property the constructor
    establishes and every effect preserves. *)
Lemma reachable_invariant (P : State -> Prop) :
  (forall self token tk op ow s, constructor self token tk op ow = Ok s -> P s) ->
  (forall s s', reachable keccak256 s -> P s -> effect keccak256 s s' -> P s') ->
  forall s, reachable keccak256 s -> P s.
Proof.
  intros Hinit Hstep s Hr. induction Hr as [? ? ? ? ? s Hc|s s' Hr IH Hs].
  - by eapply Hinit.
  - apply step_effect in Hs as [->|He]; [done|]. by eapply Hstep.
Qed.

(** *** The lock is free and the weights sum to 10000 *)

Lemma reachable_not_entered s : reachable keccak256 s -> reentrancyEntered s = false.
Proof.
  revert s. apply (reachable_invariant (fun s => reentrancyEntered s = false)).
  - intros * Hc. by apply constructor_inv in Hc as ->.
  - intros s0 s' _ IH He. by destruct He.
Qed.

Lemma reachable_weights s :
  reachable keccak256 s -> weightsSum (allocation s) = 10000.
Proof.
  revert s. apply (reachable_invariant (fun s => weightsSum (allocation s) = 10000)).
  - intros * Hc. by apply constructor_inv in Hc as ->.
  - intros s0 s' _ IH He. by destruct He.
Qed.

(** C8 (as amended): for every quadruple not summing exactly to 10000,
    [setAllocation] fails and leaves the configuration (and the rest of the
    state) unchanged -- with [InvalidPercentages] when the owner calls and the
    checked 256-bit sum does not overflow, with the arithmetic panic when it
    does; consequently the four weights sum to exactly 10000 in every
    reachable state, from construction onward. *)
Theorem allocation_weights_sum_to_10000 :
  (forall env s _reserveBps _liquidityBps _enterpriseBps _stakingBps,
     _reserveBps + _liquidityBps + _enterpriseBps + _stakingBps <> 10000 ->
     (exists err, setAllocation env _reserveBps _liquidityBps _enterpriseBps _stakingBps s
                  = Revert err) /\
     transact keccak256 env
       (CallSetAllocation _reserveBps _liquidityBps _enterpriseBps _stakingBps) s = s /\
     (msg_sender env = owner s ->
      _reserveBps + _liquidityBps + _enterpriseBps + _stakingBps <= MAX_UINT256 ->
      setAllocation env _reserveBps _liquidityBps _enterpriseBps _stakingBps s
        = Revert InvalidPercentages) /\
     (msg_sender env = owner s ->
      MAX_UINT256 < _reserveBps + _liquidityBps + _enterpriseBps + _stakingBps ->
      setAllocation env _reserveBps _liquidityBps _enterpriseBps _stakingBps s
        = Revert (Panic 17))) /\
  (forall s, reachable keccak256 s ->
     reserveBps (allocation s) + liquidityBps (allocation s)
       + enterpriseBps (allocation s) + stakingBps (allocation s) = 10000).
Proof.
  split.
  - intros env s r l e st Hne.
    destruct (setAllocation_rejects env r l e st s Hne) as [err Herr].
    split_and!.
    + by exists err.
    + eapply transact_revert. cbn [dispatch]. exact Herr.
    + intros. by apply setAllocation_invalid.
    + intros. by apply setAllocation_overflow.
  - intros s Hr. by apply reachable_weights.
Qed.

(** *** Reversed never exceeds bridged *)

Lemma settledSum_insert_fresh m k e :
  m !! k = None -> settledSum (<[k := e]> m) = settledSum m + settledAmount e.
Proof.
  intros Hk. unfold settledSum. rewrite map_fold_insert_L; [done| |done].
  intros. lia.
Qed.

Lemma settledSum_delete m k e :
  m !! k = Some e -> settledSum m = settledSum (delete k m) + settledAmount e.
Proof.
  intros Hk. unfold settledSum.
  rewrite (map_fold_delete_L _ _ k e m); [done| |done]. intros. lia.
Qed.

Lemma settledSum_insert m k e' :
  settledSum (<[k := e']> m) + from_option settledAmount 0 (m !! k)
  = settledSum m + settledAmount e'.
Proof.
  destruct (m !! k) as [e|] eqn:Hk; cbn [from_option].
  - rewrite <- insert_delete_eq, settledSum_insert_fresh by apply lookup_delete_eq.
    rewrite (settledSum_delete m k e Hk). lia.
  - rewrite settledSum_insert_fresh by done. lia.
Qed.

Lemma reachable_totals s :
  reachable keccak256 s ->
  totalRevenueReversed s + settledSum (settlements s) <= totalRevenueBridged s.
Proof.
  revert s. apply (reachable_invariant (fun s =>
    totalRevenueReversed s + settledSum (settlements s) <= totalRevenueBridged s)).
  - intros * Hc. apply constructor_inv in Hc as ->. cbn. unfold settledSum.
    rewrite map_fold_empty. lia.
  - intros s s' _ IH He. destruct He; try exact IH.
    + cbn [totalRevenueReversed totalRevenueBridged settlements afterBridge entryOf amount].
      pose proof (settledSum_insert (settlements s) sid
                    (entryOf env i a p b cur src dst sid)) as Hs.
      unfold settledAmount at 2 in Hs. cbn [entryOf status amount] in Hs.
      rewrite decide_True in Hs by done. lia.
    + cbn [totalRevenueReversed totalRevenueBridged settlements afterReverse].
      pose proof (settledSum_insert (settlements s) sid (set_status REVERSED entry)) as Hs.
      match goal with H : settlements s !! sid = Some entry |- _ => rewrite H in Hs end.
      cbn [from_option] in Hs. unfold settledAmount in Hs. cbn [set_status status] in Hs.
      rewrite (decide_True (P := status entry = SETTLED)) in Hs by done.
      rewrite (decide_False (P := REVERSED = SETTLED)) in Hs by done. lia.
    + cbn [totalRevenueReversed totalRevenueBridged settlements set_settlements].
      pose proof (settledSum_insert (settlements s) sid (set_status DISPUTED entry)) as Hs.
      unfold settledAmount at 2 in Hs. cbn [set_status status] in Hs.
      rewrite decide_False in Hs by done. lia.
Qed.

Lemma reachable_netRevenue s :
  reachable keccak256 s ->
  netRevenue s = Ok (totalRevenueBridged s - totalRevenueReversed s).
Proof.
  intros Hr. pose proof (reachable_totals s Hr) as Ht.
  unfold netRevenue. apply checked_sub_ok. lia.
Qed.

(** C10: in every reachable state [totalRevenueReversed] is at most
    [totalRevenueBridged], so the checked subtraction of [netRevenue] does
    not underflow and returns their difference. *)
Theorem reversed_le_bridged s :
  reachable keccak256 s ->
  totalRevenueReversed s <= totalRevenueBridged s /\
  netRevenue s = Ok (totalRevenueBridged s - totalRevenueReversed s).
Proof.
  intros Hr. pose proof (reachable_totals s Hr) as Ht.
  split; [lia|]. by apply reachable_netRevenue.
Qed.

End Steps.

(** ** The packing of settlement identifiers is injective in the nonce *)

Lemma length_be_bytes k n : length (be_bytes k n) = k.
Proof.
  revert n. induction k as [|k IH]; intros n; [done|].
  cbn [be_bytes]. rewrite length_app, IH. cbn. lia.
Qed.

Lemma to_N_byte_of_N n : Byte.to_N (byte_of_N n) = n mod 256.
Proof.
  unfold byte_of_N. destruct (Byte.of_N (n mod 256)) as [b|] eqn:E.
  - by apply Byte.to_of_N in E.
  - apply Byte.of_N_None_iff in E.
    pose proof (N.mod_upper_bound n 256). lia.
Qed.

Lemma be_value_snoc l b : be_value (l ++ [b]) = be_value l * 256 + Byte.to_N b.
Proof. unfold be_value. by rewrite fold_left_app. Qed.

Lemma be_value_be_bytes k n : be_value (be_bytes k n) = n mod 256 ^ N.of_nat k.
Proof.
  revert n. induction k as [|k IH]; intros n.
  - cbn. by rewrite N.mod_1_r.
  - cbn [be_bytes]. rewrite be_value_snoc, IH, to_N_byte_of_N.
    rewrite Nat2N.inj_succ, N.pow_succ_r', N.Div0.mod_mul_r. lia.
Qed.

Lemma encode_uint256_inj n n' :
  n <= MAX_UINT256 -> n' <= MAX_UINT256 ->
  encode_uint256 n = encode_uint256 n' -> n = n'.
Proof.
  intros Hn Hn' He. apply (f_equal be_value) in He.
  unfold encode_uint256 in He. rewrite !be_value_be_bytes in He.
  change (256 ^ N.of_nat 32) with (MAX_UINT256 + 1) in He.
  rewrite !N.mod_small in He by lia. done.
Qed.

Lemma settlementPreimage_nonce_inj i ts cid n i' ts' cid' n' :
  n <= MAX_UINT256 -> n' <= MAX_UINT256 ->
  settlementPreimage i ts cid n = settlementPreimage i' ts' cid' n' -> n = n'.
Proof.
  intros Hn Hn' He. unfold settlementPreimage in He.
  rewrite !(assoc_L (++)) in He.
  apply app_inj_2 in He as [_ He].
  - by apply encode_uint256_inj.
  - unfold encode_uint256. by rewrite !length_be_bytes.
Qed.

(** ** Settlements under a collision-free hash *)

Section Ledger.

Variable keccak256 : list byte -> bytes32.

(** Collision resistance of the hash, idealised as injectivity. *)
Hypothesis keccak256_inj : forall x y, keccak256 x = keccak256 y -> x = y.

Lemma reachable_wellFormed s :
  reachable keccak256 s -> settlementsWellFormed keccak256 s.
Proof.
  revert s. apply (reachable_invariant keccak256 (settlementsWellFormed keccak256)).
  - intros * Hc. apply constructor_inv in Hc as ->. split; [done|].
    intros sid e. cbn. by rewrite lookup_empty.
  - intros s s' _ [Hn IH] He. destruct He; try (split; [exact Hn|exact IH]).
    + split; [done|]. intros sid' e'.
      cbn [settlements _settlementNonce afterBridge].
      rewrite lookup_insert_Some. intros [[<- <-]|[_ He']].
      * split; [done|]. eexists _, _, _, _. split; [|eassumption]. lia.
      * destruct (IH _ _ He') as [? (i' & ts & cid & n & ? & ?)].
        split; [done|]. exists i', ts, cid, n. split; [lia|done].
    + split; [done|]. intros sid' e'.
      cbn [settlements _settlementNonce afterReverse].
      rewrite lookup_insert_Some. intros [[<- <-]|[_ He']]; [|by apply IH].
      split; [done|]. by eapply IH.
    + split; [done|]. intros sid' e'.
      cbn [settlements _settlementNonce set_settlements].
      rewrite lookup_insert_Some. intros [[<- <-]|[_ He']]; [|by apply IH].
      split; [done|]. by eapply IH.
Qed.

(** The identifier drawn with the next nonce is not in use. *)
Lemma next_settlementId_fresh s i ts cid :
  settlementsWellFormed keccak256 s -> _settlementNonce s + 1 <= MAX_UINT256 ->
  settlements s !! keccak256 (settlementPreimage i ts cid (_settlementNonce s + 1)) = None.
Proof.
  intros [Hn Hwf] Hnext.
  destruct (settlements s !! _) as [e|] eqn:He; [|done].
  destruct (Hwf _ _ He) as [_ (i' & ts' & cid' & n & Hle & Heq)].
  apply keccak256_inj, settlementPreimage_nonce_inj in Heq; lia.
Qed.

(** One committed step moves each settlement along [statusStep], and leaves
    everything but the status of an existing record alone. *)
Lemma effect_statusStep s s' sid :
  reachable keccak256 s -> effect keccak256 s s' ->
  statusStep (statusOf s sid) (statusOf s' sid).
Proof.
  intros Hr He. pose proof (reachable_wellFormed s Hr) as Hwf.
  unfold statusOf. destruct He; try apply statusStep_same.
  - cbn [settlements afterBridge]. destruct (decide (sid0 = sid)) as [<-|Hne].
    + rewrite lookup_insert_eq. subst sid0.
      rewrite next_settlementId_fresh by done. constructor.
    + rewrite lookup_insert_ne by done. constructor.
  - cbn [settlements afterReverse]. destruct (decide (sid0 = sid)) as [<-|Hne].
    + rewrite lookup_insert_eq.
      match goal with H : settlements s !! sid0 = Some entry |- _ => rewrite H end.
      cbn. match goal with H : status entry = SETTLED |- _ => rewrite H end. constructor.
    + rewrite lookup_insert_ne by done. constructor.
  - cbn [settlements set_settlements]. destruct (decide (sid0 = sid)) as [<-|Hne].
    + rewrite lookup_insert_eq.
      match goal with H : settlements s !! sid0 = Some entry |- _ => rewrite H end.
      cbn. constructor.
    + rewrite lookup_insert_ne by done. constructor.
Qed.

Lemma effect_entry_kept s s' sid e :
  reachable keccak256 s -> effect keccak256 s s' ->
  settlements s !! sid = Some e ->
  exists e', settlements s' !! sid = Some e' /\ sameButStatus e e'.
Proof.
  intros Hr He Hsid. pose proof (reachable_wellFormed s Hr) as Hwf.
  assert (Hsame : sameButStatus e e) by (by destruct e).
  destruct He; try (by exists e).
  - cbn [settlements afterBridge]. destruct (decide (sid0 = sid)) as [<-|Hne].
    + subst sid0. rewrite next_settlementId_fresh in Hsid by done. done.
    + rewrite lookup_insert_ne by done. by exists e.
  - cbn [settlements afterReverse]. destruct (decide (sid0 = sid)) as [<-|Hne].
    + rewrite lookup_insert_eq. simplify_eq. by eexists.
    + rewrite lookup_insert_ne by done. by exists e.
  - cbn [settlements set_settlements]. destruct (decide (sid0 = sid)) as [<-|Hne].
    + rewrite lookup_insert_eq. simplify_eq. by eexists.
    + rewrite lookup_insert_ne by done. by exists e.
Qed.

Lemma sameButStatus_trans e1 e2 e3 :
  sameButStatus e1 e2 -> sameButStatus e2 e3 -> sameButStatus e1 e3.
Proof. unfold sameButStatus. intros -> ->. done. Qed.

Lemma steps_entry_kept s s' sid e :
  reachable keccak256 s -> rtc (step keccak256) s s' ->
  settlements s !! sid = Some e ->
  exists e', settlements s' !! sid = Some e' /\ sameButStatus e e'.
Proof.
  intros Hr Hs. revert e. induction Hs as [s|s s1 s' H1 Hs IH]; intros e He.
  - exists e. split; [done|]. by destruct e.
  - assert (Hr1 : reachable keccak256 s1) by (by eapply reachable_step).
    apply step_effect in H1 as [->|Heff]; [by apply IH|].
    destruct (effect_entry_kept s s1 sid e Hr Heff He) as (e1 & He1 & Hs1).
    destruct (IH Hr1 e1 He1) as (e' & He' & Hs').
    exists e'. split; [done|]. by eapply sameButStatus_trans.
Qed.

Lemma step_statusStep s s' sid :
  reachable keccak256 s -> step keccak256 s s' ->
  statusStep (statusOf s sid) (statusOf s' sid).
Proof.
  intros Hr Hs. apply step_effect in Hs as [->|He]; [constructor|].
  by apply effect_statusStep.
Qed.

Lemma steps_disputed_stays s s' sid :
  reachable keccak256 s -> rtc (step keccak256) s s' ->
  statusOf s sid = Some DISPUTED -> statusOf s' sid = Some DISPUTED.
Proof.
  intros Hr Hs. induction Hs as [s|s s1 s' H1 Hs IH]; [done|].
  intros Hd. pose proof (step_statusStep s s1 sid Hr H1) as Hss. rewrite Hd in Hss.
  apply IH; [by eapply reachable_step|]. inversion Hss; congruence.
Qed.

Lemma steps_reversed_stays s s' sid :
  reachable keccak256 s -> rtc (step keccak256) s s' ->
  statusOf s sid = Some REVERSED ->
  statusOf s' sid = Some REVERSED \/ statusOf s' sid = Some DISPUTED.
Proof.
  intros Hr Hs. induction Hs as [s|s s1 s' H1 Hs IH]; [by left|].
  intros Hst. assert (Hr1 : reachable keccak256 s1) by (by eapply reachable_step).
  pose proof (step_statusStep s s1 sid Hr H1) as Hss. rewrite Hst in Hss.
  assert (statusOf s1 sid = Some REVERSED \/ statusOf s1 sid = Some DISPUTED) as [H|H]
    by (inversion Hss; [left|right]; congruence).
  - by apply IH.
  - right. by eapply steps_disputed_stays.
Qed.

(** C4 (as amended): over every reachable sequence of operations the status
    of a settlement moves only (none) -> SETTLED, SETTLED -> REVERSED, or from
    any status of an existing settlement to DISPUTED; a REVERSED settlement
    never returns to SETTLED -- it stays REVERSED unless it is disputed --, a
    DISPUTED one stays DISPUTED, and every settlement starts as SETTLED, so
    none becomes REVERSED or DISPUTED without having been SETTLED and none is
    ever PENDING. *)
Theorem settlement_status_transitions :
  (forall s s' sid, reachable keccak256 s -> step keccak256 s s' ->
     statusStep (statusOf s sid) (statusOf s' sid)) /\
  (forall s s' sid, reachable keccak256 s -> rtc (step keccak256) s s' ->
     statusOf s sid = Some REVERSED ->
     statusOf s' sid = Some REVERSED \/ statusOf s' sid = Some DISPUTED) /\
  (forall s s' sid, reachable keccak256 s -> rtc (step keccak256) s s' ->
     statusOf s sid = Some DISPUTED -> statusOf s' sid = Some DISPUTED) /\
  (forall s s' sid, reachable keccak256 s -> step keccak256 s s' ->
     statusOf s sid = None -> statusOf s' sid = None \/ statusOf s' sid = Some SETTLED) /\
  (forall s sid, reachable keccak256 s -> statusOf s sid <> Some PENDING).
Proof.
  split_and!.
  - intros. by apply step_statusStep.
  - intros. by eapply steps_reversed_stays.
  - intros. by eapply steps_disputed_stays.
  - intros s s' sid Hr Hs Hnone.
    pose proof (step_statusStep s s' sid Hr Hs) as Hss. rewrite Hnone in Hss.
    inversion Hss; [left|right]; congruence.
  - intros s sid Hr. unfold statusOf.
    destruct (settlements s !! sid) as [e|] eqn:He; [|done].
    destruct (reachable_wellFormed s Hr) as [_ Hwf].
    destruct (Hwf _ _ He) as [Hp _]. cbn. congruence.
Qed.

(** *** Bridging, then reversing *)

Lemma bridgeRevenue_transact env i a p b cur src dst s sid s' :
  bridgeRevenue keccak256 env i a p b cur src dst s = Ok (sid, s') ->
  transact keccak256 env (CallBridgeRevenue i a p b cur src dst) s = s'.
Proof. intros H. unfold transact, dispatch, bind. by rewrite H. Qed.

Lemma reverseSettlement_transact env sid reason s u s' :
  reverseSettlement env sid reason s = Ok (u, s') ->
  transact keccak256 env (CallReverseSettlement sid reason) s = s'.
Proof. intros H. unfold transact, dispatch. by rewrite H. Qed.

(** C3 (as amended): for every successful [bridgeRevenue] followed, after
    any sequence of steps, by a successful [reverseSettlement] of the
    settlement it created, [totalRevenueReversed] grows by exactly the
    entry's original amount and [netRevenue()] is [totalRevenueBridged -
    totalRevenueReversed]; and when the allocation weights at the reversal
    are those of the bridging, the reversal burns from each of the
    beneficiary's four partitions exactly what the bridging issued there, so
    that the four balances are back at their pre-bridge values whenever
    nothing else moved them in between (in particular when the reversal
    directly follows the bridging). *)
Theorem reversal_undoes_bridging env0 _invoiceId _amount _payer _beneficiary _currency
    _sourceSystem _destinationSystem s0 sid s1 s2 env2 _reason u s3 :
  reachable keccak256 s0 ->
  bridgeRevenue keccak256 env0 _invoiceId _amount _payer _beneficiary _currency
    _sourceSystem _destinationSystem s0 = Ok (sid, s1) ->
  rtc (step keccak256) s1 s2 ->
  reverseSettlement env2 sid _reason s2 = Ok (u, s3) ->
  totalRevenueReversed s3 = totalRevenueReversed s2 + _amount /\
  totalRevenueBridged s3 = totalRevenueBridged s2 /\
  netRevenue s3 = Ok (totalRevenueBridged s3 - totalRevenueReversed s3) /\
  statusOf s3 sid = Some REVERSED /\
  (allocation s2 = allocation s0 ->
     exists split,
       calculateAllocations s0 _amount = Ok split /\
       (forall q, balanceOfByPartition (nbptToken s1) q _beneficiary
                  = balanceOfByPartition (nbptToken s0) q _beneficiary + shareOf split q) /\
       (forall q, balanceOfByPartition (nbptToken s3) q _beneficiary + shareOf split q
                  = balanceOfByPartition (nbptToken s2) q _beneficiary) /\
       ((forall q, balanceOfByPartition (nbptToken s2) q _beneficiary
                   = balanceOfByPartition (nbptToken s1) q _beneficiary) ->
        forall q, balanceOfByPartition (nbptToken s3) q _beneficiary
                  = balanceOfByPartition (nbptToken s0) q _beneficiary)) /\
  (s2 = s1 ->
     forall q, balanceOfByPartition (nbptToken s3) q _beneficiary
               = balanceOfByPartition (nbptToken s0) q _beneficiary).
Proof.
  intros Hr0 Hbridge Hsteps Hrev.
  assert (Hr1 : reachable keccak256 s1).
  { rewrite <- (bridgeRevenue_transact _ _ _ _ _ _ _ _ _ _ _ Hbridge).
    eapply reachable_step; [done|constructor]. }
  assert (Hr2 : reachable keccak256 s2) by (by eapply reachable_steps).
  assert (Hr3 : reachable keccak256 s3).
  { rewrite <- (reverseSettlement_transact _ _ _ _ _ _ Hrev).
    eapply reachable_step; [done|constructor]. }
  apply bridgeRevenue_ok_inv in Hbridge
    as (_ & _ & _ & _ & _ & _ & _ & Hsid & _ & split0 & t1 & Hsplit0 & Hbal1 & Hs1).
  assert (He1 : settlements s1 !! sid
                = Some (entryOf env0 _invoiceId _amount _payer _beneficiary _currency
                          _sourceSystem _destinationSystem sid)).
  { rewrite Hs1. cbn [settlements afterBridge]. apply lookup_insert_eq. }
  destruct (steps_entry_kept s1 s2 sid _ Hr1 Hsteps He1) as (e2 & He2 & Hsame).
  assert (Hamt : amount e2 = _amount) by (rewrite Hsame; done).
  assert (Hben : beneficiary e2 = _beneficiary) by (rewrite Hsame; done).
  apply reverseSettlement_ok_inv in Hrev
    as (_ & _ & _ & entry & split2 & t3 & Hentry & _ & _ & _ & Hsplit2 & Hbal3 & Hs3).
  rewrite He2 in Hentry. injection Hentry as <-.
  rewrite Hamt in Hsplit2. rewrite Hben in Hbal3.
  assert (Hbal1' : forall q, balanceOfByPartition (nbptToken s1) q _beneficiary
             = balanceOfByPartition (nbptToken s0) q _beneficiary + shareOf split0 q).
  { intros q. rewrite Hs1. cbn [nbptToken afterBridge].
    rewrite Hbal1, decide_True by done. done. }
  assert (Hbal3' : forall q, balanceOfByPartition (nbptToken s3) q _beneficiary
                             + shareOf split2 q
             = balanceOfByPartition (nbptToken s2) q _beneficiary).
  { intros q. rewrite Hs3. cbn [nbptToken afterReverse].
    rewrite <- (Hbal3 q _beneficiary), decide_True by done. done. }
  assert (Hsame_alloc : allocation s2 = allocation s0 -> split2 = split0).
  { intros Ha. rewrite Ha in Hsplit2. congruence. }
  split_and!.
  - rewrite Hs3. cbn [totalRevenueReversed afterReverse]. by rewrite Hamt.
  - by rewrite Hs3.
  - by apply (reachable_netRevenue keccak256).
  - rewrite Hs3. unfold statusOf. cbn [settlements afterReverse].
    by rewrite lookup_insert_eq.
  - intros Ha. apply Hsame_alloc in Ha as ->. exists split0. split_and!; try done.
    intros Hquiet q. specialize (Hbal3' q). rewrite Hquiet, Hbal1' in Hbal3'. lia.
  - intros ->. assert (split2 = split0) as ->.
    { apply Hsame_alloc. by rewrite Hs1. }
    intros q. specialize (Hbal3' q). rewrite Hbal1' in Hbal3'. lia.
Qed.

End Ledger.

(** ** The invoice index *)

Section InvoiceIndex.

Variable keccak256 : list byte -> bytes32.

(** The hash never yields the zero word, which the contract reads as "no
    settlement". *)
Hypothesis keccak256_nonzero : forall x, keccak256 x <> 0.

Lemma effect_invoice_kept s s' i :
  getSettlementByInvoice keccak256 s i <> 0 -> effect keccak256 s s' ->
  getSettlementByInvoice keccak256 s' i = getSettlementByInvoice keccak256 s i.
Proof.
  intros Hm He. unfold getSettlementByInvoice in *. destruct He; try done.
  cbn [invoiceToSettlement afterBridge].
  destruct (decide (keccak256 (encode_string i0) = keccak256 (encode_string i))) as [Heq|Hne].
  - match goal with H : isInvoiceProcessed _ _ _ = false |- _ =>
      unfold isInvoiceProcessed in H; rewrite Heq in H;
      apply negb_false_iff, N.eqb_eq in H end.
    done.
  - by rewrite lookup_insert_ne.
Qed.

Lemma steps_invoice_kept s s' i :
  getSettlementByInvoice keccak256 s i <> 0 -> rtc (step keccak256) s s' ->
  getSettlementByInvoice keccak256 s' i = getSettlementByInvoice keccak256 s i.
Proof.
  intros Hm Hs. induction Hs as [s|s s1 s' H1 Hs IH]; [done|].
  apply step_effect in H1 as [->|He]; [by apply IH|].
  pose proof (effect_invoice_kept s s1 i Hm He) as Hk.
  rewrite IH by congruence. done.
Qed.

Lemma steps_not_entered s s' :
  reentrancyEntered s = false -> rtc (step keccak256) s s' ->
  reentrancyEntered s' = false.
Proof.
  intros Hm Hs. induction Hs as [s|s s1 s' H1 Hs IH]; [done|].
  apply IH. apply step_effect in H1 as [->|He]; [done|]. by destruct He.
Qed.

(** C9: once [bridgeRevenue] has created a settlement for an invoice, the
    invoice stays mapped to that one settlement identifier in every later
    state -- no operation, reversal and dispute included, removes or changes
    the mapping -- and bridging the invoice again fails, for any caller and
    arguments, with [InvoiceAlreadyProcessed] once the modifiers and argument
    checks are passed. *)
Theorem invoice_mapping_permanent env _invoiceId _amount _payer _beneficiary _currency
    _sourceSystem _destinationSystem s0 sid s1 s2 :
  bridgeRevenue keccak256 env _invoiceId _amount _payer _beneficiary _currency
    _sourceSystem _destinationSystem s0 = Ok (sid, s1) ->
  rtc (step keccak256) s1 s2 ->
  sid <> 0 /\
  getSettlementByInvoice keccak256 s2 _invoiceId = sid /\
  isInvoiceProcessed keccak256 s2 _invoiceId = true /\
  (forall env' a p b cur src dst,
     exists e, bridgeRevenue keccak256 env' _invoiceId a p b cur src dst s2 = Revert e) /\
  (forall env' a p b cur src dst,
     transact keccak256 env' (CallBridgeRevenue _invoiceId a p b cur src dst) s2 = s2) /\
  (forall env' a p b cur src dst,
     authorized env' s2 -> paused s2 = false -> a <> 0 -> b <> 0 ->
     bridgeRevenue keccak256 env' _invoiceId a p b cur src dst s2
       = Revert (InvoiceAlreadyProcessed _invoiceId)).
Proof.
  intros Hbridge Hsteps.
  apply bridgeRevenue_ok_inv in Hbridge
    as (_ & _ & _ & _ & _ & _ & _ & Hsid & _ & split0 & t1 & _ & _ & Hs1).
  assert (Hnz : sid <> 0) by (rewrite Hsid; apply keccak256_nonzero).
  assert (Hm1 : getSettlementByInvoice keccak256 s1 _invoiceId = sid).
  { rewrite Hs1. unfold getSettlementByInvoice. cbn [invoiceToSettlement afterBridge].
    by rewrite lookup_insert_eq. }
  assert (Hm2 : getSettlementByInvoice keccak256 s2 _invoiceId = sid).
  { rewrite <- Hm1. apply steps_invoice_kept; [congruence|done]. }
  assert (Hp2 : isInvoiceProcessed keccak256 s2 _invoiceId = true).
  { unfold isInvoiceProcessed, getSettlementByInvoice in *. rewrite Hm2.
    by apply negb_true_iff, N.eqb_neq. }
  assert (Hent : reentrancyEntered s2 = false).
  { eapply steps_not_entered; [|done]. by rewrite Hs1. }
  split_and!; try done.
  - intros. by apply bridgeRevenue_duplicate_never_ok.
  - intros env' a p b cur src dst.
    destruct (bridgeRevenue_duplicate_never_ok keccak256 env' s2 _invoiceId a p b cur src dst Hp2)
      as [e He].
    eapply transact_revert, dispatch_bridgeRevenue_revert, He.
  - intros. by apply bridgeRevenue_duplicate.
Qed.

End InvoiceIndex.

(** ** The model at work: a concrete hash and concrete transactions *)

Lemma idealHash_pos l : 1 <= idealHash l.
Proof. induction l as [|b l IH]; cbn [idealHash]; lia. Qed.

Lemma idealHash_inj x y : idealHash x = idealHash y -> x = y.
Proof.
  revert y. induction x as [|b x IH]; intros [|b' y]; cbn [idealHash]; intros H.
  - done.
  - pose proof (idealHash_pos y). lia.
  - pose proof (idealHash_pos x). lia.
  - pose proof (Byte.to_N_bounded b). pose proof (Byte.to_N_bounded b').
    assert (idealHash x = idealHash y /\ Byte.to_N b = Byte.to_N b') as [Hx Hb] by lia.
    f_equal; [|by apply IH].
    apply (f_equal Byte.of_N) in Hb. rewrite !Byte.of_to_N in Hb. by injection Hb.
Qed.

Lemma idealHash_nonzero x : idealHash x <> 0.
Proof. pose proof (idealHash_pos x). lia. Qed.

Lemma genesis_reachable : reachable idealHash Scenario.genesis.
Proof.
  apply (reachable_init idealHash Scenario.bridgeAddr Scenario.emptyToken
           Scenario.tokenAddr Scenario.operator0 Scenario.owner0).
  reflexivity.
Qed.

Lemma bridged1_reachable : reachable idealHash Scenario.bridged1.
Proof. eapply reachable_step; [apply genesis_reachable|apply step_call]. Qed.

Lemma bridged1_paused_reachable : reachable idealHash Scenario.bridged1_paused.
Proof. eapply reachable_step; [apply bridged1_reachable|apply step_call]. Qed.

Lemma reversed1_reachable : reachable idealHash Scenario.reversed1.
Proof. eapply reachable_step; [apply bridged1_reachable|apply step_call]. Qed.

Lemma bridged2_reachable : reachable idealHash Scenario.bridged2.
Proof. eapply reachable_step; [apply bridged1_reachable|apply step_call]. Qed.

Lemma bridge1_run :
  bridgeRevenue idealHash (Scenario.as_ Scenario.operator0) "inv_1" 10000
    Scenario.payer0 Scenario.treasury 0
    (SOURCE_STRIPE idealHash) (DEST_DAO_TREASURY idealHash) Scenario.genesis
  = Ok (Scenario.sid "inv_1" 1, Scenario.bridged1).
Proof.
  destruct (bridgeRevenue _ _ _ _ _ _ _ _ _ _) as [[x s']|e] eqn:E.
  - pose proof (bridgeRevenue_transact _ _ _ _ _ _ _ _ _ _ _ _ E) as Ht.
    apply bridgeRevenue_ok_inv in E as (_ & _ & _ & _ & _ & _ & _ & Hsid & _).
    rewrite <- Ht, Hsid. reflexivity.
  - apply (f_equal isOk) in E. vm_compute in E. discriminate E.
Qed.

Lemma reverse1_run :
  reverseSettlement (Scenario.as_ Scenario.operator0) (Scenario.sid "inv_1" 1) 7
    Scenario.bridged1
  = Ok (tt, Scenario.reversed1).
Proof.
  destruct (reverseSettlement _ _ _ _) as [[[] s']|e] eqn:E.
  - by rewrite <- (reverseSettlement_transact idealHash _ _ _ _ _ _ E).
  - apply (f_equal isOk) in E. vm_compute in E. discriminate E.
Qed.

Lemma bridge2_run :
  bridgeRevenue idealHash (Scenario.as_ Scenario.operator0) "inv_2" 10000
    Scenario.payer0 Scenario.treasury 0
    (SOURCE_STRIPE idealHash) (DEST_DAO_TREASURY idealHash) Scenario.bridged1
  = Ok (Scenario.sid "inv_2" 2, Scenario.bridged2).
Proof.
  destruct (bridgeRevenue _ _ _ _ _ _ _ _ _ _) as [[x s']|e] eqn:E.
  - pose proof (bridgeRevenue_transact _ _ _ _ _ _ _ _ _ _ _ _ E) as Ht.
    apply bridgeRevenue_ok_inv in E as (_ & _ & _ & _ & _ & _ & _ & Hsid & _).
    rewrite <- Ht, Hsid. reflexivity.
  - apply (f_equal isOk) in E. vm_compute in E. discriminate E.
Qed.

Lemma reverse2_run :
  reverseSettlement (Scenario.as_ Scenario.operator0) (Scenario.sid "inv_2" 2) 7
    Scenario.reweighted2
  = Ok (tt, Scenario.reversed2).
Proof.
  destruct (reverseSettlement _ _ _ _) as [[[] s']|e] eqn:E.
  - by rewrite <- (reverseSettlement_transact idealHash _ _ _ _ _ _ E).
  - apply (f_equal isOk) in E. vm_compute in E. discriminate E.
Qed.

Lemma bridgeStripe_defaults_run :
  bridgeRevenue idealHash (Scenario.as_ Scenario.operator0) "inv_stripe" 1000000
    0 Scenario.treasury 0 (SOURCE_STRIPE idealHash) (DEST_DAO_TREASURY idealHash)
    Scenario.genesis = Ok (Scenario.sid "inv_stripe" 1, Scenario.bridgedStripe).
Proof.
  destruct (bridgeRevenue _ _ _ _ _ _ _ _ _ _) as [[x s']|e] eqn:E.
  - pose proof (bridgeRevenue_transact _ _ _ _ _ _ _ _ _ _ _ _ E) as Ht.
    apply bridgeRevenue_ok_inv in E as (_ & _ & _ & _ & _ & _ & _ & Hsid & _).
    rewrite <- Ht, Hsid. reflexivity.
  - apply (f_equal isOk) in E. vm_compute in E. discriminate E.
Qed.

Lemma dispute_paused_run :
  disputeSettlement (Scenario.as_ Scenario.operator0)
    (Scenario.sid "inv_1" 1) Scenario.bridged1_paused
  = Ok (tt, Scenario.disputed1_paused).
Proof.
  destruct (disputeSettlement _ _ _) as [[[] s']|e] eqn:E.
  - unfold Scenario.disputed1_paused, transact, dispatch. by rewrite E.
  - apply (f_equal isOk) in E. vm_compute in E. discriminate E.
Qed.

(** C6: the convenience variant cannot succeed on any input.  In the freshly
    deployed contract the operator's [bridgeStripeRevenue("inv_stripe",
    1000000, treasury)] reverts with [Unauthorized], raised by the inner
    [this.bridgeRevenue] whose caller is the bridge itself, while
    [bridgeRevenue] with the same defaults succeeds. *)
Theorem bridgeStripeRevenue_cannot_succeed :
  (forall keccak256 env _invoiceId _amount _beneficiary s,
     exists e, bridgeStripeRevenue keccak256 env _invoiceId _amount _beneficiary s
               = Revert e) /\
  bridgeStripeRevenue idealHash (Scenario.as_ Scenario.operator0)
    "inv_stripe" 1000000 Scenario.treasury Scenario.genesis = Revert Unauthorized /\
  bridgeRevenue idealHash (Scenario.as_ Scenario.operator0) "inv_stripe" 1000000
    0 Scenario.treasury 0 (SOURCE_STRIPE idealHash) (DEST_DAO_TREASURY idealHash)
    Scenario.genesis = Ok (Scenario.sid "inv_stripe" 1, Scenario.bridgedStripe) /\
  Scenario.balancesOf Scenario.bridgedStripe Scenario.treasury
    = (400000, 300000, 200000, 100000).
Proof.
  split_and!.
  - intros. apply bridgeStripeRevenue_reverts.
  - vm_compute. reflexivity.
  - apply bridgeStripe_defaults_run.
  - vm_compute. reflexivity.
Qed.

(** *** Counterexamples to the claims as first stated *)

Lemma reverse1_after2_run :
  reverseSettlement (Scenario.as_ Scenario.operator0) (Scenario.sid "inv_1" 1) 7
    Scenario.bridged2
  = Ok (tt, Scenario.reversed1_after2).
Proof.
  destruct (reverseSettlement _ _ _ _) as [[[] s']|e] eqn:E.
  - by rewrite <- (reverseSettlement_transact idealHash _ _ _ _ _ _ E).
  - apply (f_equal isOk) in E. vm_compute in E. discriminate E.
Qed.

(** C3 fails as stated, in two ways.  With another invoice bridged for the
    same beneficiary between the bridging of "inv_1" and its reversal, the
    beneficiary's balances after the reversal are not the pre-bridge ones.
    And with a change of weights between the bridging of "inv_2" and its
    reversal, the reversal burns a split other than the one issued. *)
Lemma reversal_counterexample :
  (reachable idealHash Scenario.genesis /\
   bridgeRevenue idealHash (Scenario.as_ Scenario.operator0) "inv_1" 10000
     Scenario.payer0 Scenario.treasury 0
     (SOURCE_STRIPE idealHash) (DEST_DAO_TREASURY idealHash) Scenario.genesis
     = Ok (Scenario.sid "inv_1" 1, Scenario.bridged1) /\
   Scenario.bridged2
     = transact idealHash (Scenario.as_ Scenario.operator0)
         (Scenario.bridge "inv_2" 10000) Scenario.bridged1 /\
   reverseSettlement (Scenario.as_ Scenario.operator0) (Scenario.sid "inv_1" 1) 7
     Scenario.bridged2 = Ok (tt, Scenario.reversed1_after2) /\
   Scenario.balancesOf Scenario.genesis Scenario.treasury = (0, 0, 0, 0) /\
   Scenario.balancesOf Scenario.reversed1_after2 Scenario.treasury
     = (4000, 3000, 2000, 1000)) /\
  (reachable idealHash Scenario.bridged1 /\
   bridgeRevenue idealHash (Scenario.as_ Scenario.operator0) "inv_2" 10000
     Scenario.payer0 Scenario.treasury 0
     (SOURCE_STRIPE idealHash) (DEST_DAO_TREASURY idealHash) Scenario.bridged1
     = Ok (Scenario.sid "inv_2" 2, Scenario.bridged2) /\
   Scenario.reweighted2
     = transact idealHash (Scenario.as_ Scenario.owner0)
         (CallSetAllocation 3000 3000 2000 2000) Scenario.bridged2 /\
   reverseSettlement (Scenario.as_ Scenario.operator0) (Scenario.sid "inv_2" 2) 7
     Scenario.reweighted2 = Ok (tt, Scenario.reversed2) /\
   Scenario.balancesOf Scenario.bridged1 Scenario.treasury = (4000, 3000, 2000, 1000) /\
   Scenario.balancesOf Scenario.reversed2 Scenario.treasury = (5000, 3000, 2000, 0)).
Proof.
  split; split_and!.
  - apply genesis_reachable.
  - apply bridge1_run.
  - reflexivity.
  - apply reverse1_after2_run.
  - vm_compute. reflexivity.
  - vm_compute. reflexivity.
  - apply bridged1_reachable.
  - apply bridge2_run.
  - reflexivity.
  - apply reverse2_run.
  - vm_compute. reflexivity.
  - vm_compute. reflexivity.
Qed.

(** C4 fails as stated: a REVERSED settlement leaves REVERSED when the
    operator disputes it. *)
Lemma reversed_then_disputed_counterexample :
  reachable idealHash Scenario.reversed1 /\
  statusOf Scenario.reversed1 (Scenario.sid "inv_1" 1) = Some REVERSED /\
  statusOf (transact idealHash (Scenario.as_ Scenario.operator0)
              (CallDisputeSettlement (Scenario.sid "inv_1" 1)) Scenario.reversed1)
           (Scenario.sid "inv_1" 1) = Some DISPUTED.
Proof.
  split_and!; [apply reversed1_reachable|vm_compute; reflexivity..].
Qed.

(** C5 fails as stated: [disputeSettlement] carries no [whenNotPaused]; on
    the paused contract the operator's call succeeds and changes the status. *)
Lemma dispute_while_paused_counterexample :
  reachable idealHash Scenario.bridged1_paused /\
  paused Scenario.bridged1_paused = true /\
  statusOf Scenario.bridged1_paused (Scenario.sid "inv_1" 1) = Some SETTLED /\
  disputeSettlement (Scenario.as_ Scenario.operator0)
    (Scenario.sid "inv_1" 1) Scenario.bridged1_paused
    = Ok (tt, Scenario.disputed1_paused) /\
  statusOf Scenario.disputed1_paused (Scenario.sid "inv_1" 1) = Some DISPUTED.
Proof.
  split_and!; [apply bridged1_paused_reachable|vm_compute; reflexivity..| |].
  - apply dispute_paused_run.
  - vm_compute. reflexivity.
Qed.

(** C8 fails as stated: for a quadruple whose 256-bit sum overflows, the
    owner's [setAllocation] fails with the arithmetic panic, not with
    [InvalidPercentages]. *)
Lemma setAllocation_overflow_counterexample :
  MAX_UINT256 + 1 + 0 + 0 <> 10000 /\
  setAllocation (Scenario.as_ Scenario.owner0) MAX_UINT256 1 0 0 Scenario.genesis
    = Revert (Panic 17) /\
  setAllocation (Scenario.as_ Scenario.owner0) MAX_UINT256 1 0 0 Scenario.genesis
    <> Revert InvalidPercentages.
Proof.
  split_and!; [vm_compute; discriminate|vm_compute; reflexivity|].
  vm_compute. discriminate.
Qed.

(** *** The theorems at concrete inputs *)

Lemma bridgeRevenue_idempotent_witness :
  bridgeRevenue idealHash (Scenario.as_ Scenario.operator0) "inv_1" 10000
    Scenario.payer0 Scenario.treasury 0
    (SOURCE_STRIPE idealHash) (DEST_DAO_TREASURY idealHash) Scenario.bridged1
    = Revert (InvoiceAlreadyProcessed "inv_1") /\
  transact idealHash (Scenario.as_ Scenario.operator0)
    (Scenario.bridge "inv_1" 10000) Scenario.bridged1 = Scenario.bridged1.
Proof.
  apply (bridgeRevenue_idempotent idealHash).
  - vm_compute. discriminate.
  - left. reflexivity.
  - reflexivity.
  - reflexivity.
  - discriminate.
  - discriminate.
Defined.

Lemma reversal_undoes_bridging_witness :
  totalRevenueReversed Scenario.reversed1 = totalRevenueReversed Scenario.bridged1 + 10000 /\
  netRevenue Scenario.reversed1 = Ok 0 /\
  (forall q, balanceOfByPartition (nbptToken Scenario.reversed1) q Scenario.treasury
             = balanceOfByPartition (nbptToken Scenario.genesis) q Scenario.treasury).
Proof.
  destruct (reversal_undoes_bridging idealHash idealHash_inj
              (Scenario.as_ Scenario.operator0) "inv_1" 10000 Scenario.payer0
              Scenario.treasury 0 (SOURCE_STRIPE idealHash) (DEST_DAO_TREASURY idealHash)
              Scenario.genesis (Scenario.sid "inv_1" 1) Scenario.bridged1 Scenario.bridged1
              (Scenario.as_ Scenario.operator0) 7 tt Scenario.reversed1
              genesis_reachable bridge1_run (rtc_refl _ _) reverse1_run)
    as (H1 & _ & H3 & _ & _ & H6).
  split; [exact H1|]. split; [exact H3|]. exact (H6 eq_refl).
Defined.

Lemma settlement_status_transitions_witness :
  statusStep (statusOf Scenario.bridged1 (Scenario.sid "inv_1" 1))
             (statusOf Scenario.reversed1 (Scenario.sid "inv_1" 1)).
Proof.
  apply (proj1 (settlement_status_transitions idealHash idealHash_inj)
           Scenario.bridged1 Scenario.reversed1).
  - apply bridged1_reachable.
  - apply step_call.
Defined.

Lemma paused_blocks_bridging_witness :
  bridgeRevenue idealHash (Scenario.as_ Scenario.operator0) "inv_paused" 1000
    Scenario.payer0 Scenario.treasury 0
    (SOURCE_STRIPE idealHash) (DEST_DAO_TREASURY idealHash) Scenario.bridged1_paused
    = Revert EnforcedPause /\
  transact idealHash (Scenario.as_ Scenario.operator0)
    (Scenario.bridge "inv_paused" 1000) Scenario.bridged1_paused
    = Scenario.bridged1_paused.
Proof.
  apply (paused_blocks_bridging idealHash (Scenario.as_ Scenario.operator0)
           Scenario.bridged1_paused).
  - reflexivity.
  - left. reflexivity.
  - reflexivity.
Defined.

Lemma reverseSettlement_rejects_unsettled_witness :
  reverseSettlement (Scenario.as_ Scenario.operator0) (Scenario.sid "inv_1" 1) 9
    Scenario.reversed1
    = Revert (InvalidSettlementStatus (Scenario.sid "inv_1" 1) REVERSED SETTLED) /\
  transact idealHash (Scenario.as_ Scenario.operator0)
    (CallReverseSettlement (Scenario.sid "inv_1" 1) 9) Scenario.reversed1
    = Scenario.reversed1.
Proof.
  destruct (reverseSettlement_rejects_unsettled idealHash
              (Scenario.as_ Scenario.operator0) Scenario.reversed1
              (Scenario.sid "inv_1" 1) 9) as (H1 & _ & H3).
  - vm_compute. discriminate.
  - split; [|exact H3].
    destruct H1 as (H1 & _ & _).
    + left. reflexivity.
    + reflexivity.
    + reflexivity.
    + apply H1. vm_compute. discriminate.
Defined.

Lemma allocation_weights_sum_to_10000_witness :
  setAllocation (Scenario.as_ Scenario.owner0) 5000 3000 2000 1000 Scenario.genesis
    = Revert InvalidPercentages /\
  reserveBps (allocation Scenario.reversed1) + liquidityBps (allocation Scenario.reversed1)
    + enterpriseBps (allocation Scenario.reversed1)
    + stakingBps (allocation Scenario.reversed1) = 10000.
Proof.
  destruct (allocation_weights_sum_to_10000 idealHash) as [H1 H2].
  split.
  - destruct (H1 (Scenario.as_ Scenario.owner0) Scenario.genesis 5000 3000 2000 1000)
      as (_ & _ & H & _).
    + discriminate.
    + apply H; [reflexivity|]. vm_compute. discriminate.
  - apply H2, reversed1_reachable.
Defined.

Lemma invoice_mapping_permanent_witness :
  Scenario.sid "inv_1" 1 <> 0 /\
  getSettlementByInvoice idealHash Scenario.reversed1 "inv_1" = Scenario.sid "inv_1" 1 /\
  isInvoiceProcessed idealHash Scenario.reversed1 "inv_1" = true.
Proof.
  destruct (invoice_mapping_permanent idealHash idealHash_nonzero
              (Scenario.as_ Scenario.operator0) "inv_1" 10000 Scenario.payer0
              Scenario.treasury 0 (SOURCE_STRIPE idealHash) (DEST_DAO_TREASURY idealHash)
              Scenario.genesis (Scenario.sid "inv_1" 1) Scenario.bridged1 Scenario.reversed1
              bridge1_run (rtc_once _ _ (step_call idealHash _ _ _)))
    as (H1 & H2 & H3 & _).
  split; [exact H1|]. split; [exact H2|exact H3].
Defined.

Lemma reversed_le_bridged_witness :
  totalRevenueReversed Scenario.reversed1 <= totalRevenueBridged Scenario.reversed1 /\
  netRevenue Scenario.reversed1
    = Ok (totalRevenueBridged Scenario.reversed1 - totalRevenueReversed Scenario.reversed1).
Proof.
  apply (reversed_le_bridged idealHash). apply reversed1_reachable.
Defined.

(** ** Further properties: access control and administration *)

Section Access.

Variable keccak256 : list byte -> bytes32.

Lemma onlyOwner_ok_inv {A} env (body : M A) s r :
  onlyOwner env body s = Ok r -> msg_sender env = owner s /\ body s = Ok r.
Proof.
  unfold onlyOwner. destruct (N.eqb_spec (owner s) (msg_sender env)); [|done].
  cbn [negb]. done.
Qed.

Lemma onlyOwner_not_owner {A} env (body : M A) s :
  msg_sender env <> owner s ->
  onlyOwner env body s = Revert (OwnableUnauthorizedAccount (msg_sender env)).
Proof.
  intros Hne. unfold onlyOwner.
  destruct (N.eqb_spec (owner s) (msg_sender env)); [congruence|done].
Qed.

Lemma onlyOwner_owner {A} env (body : M A) s :
  msg_sender env = owner s -> onlyOwner env body s = body s.
Proof. intros H. unfold onlyOwner. by rewrite H, N.eqb_refl. Qed.

(** X1: a caller that is neither the operator nor the owner gets
    [Unauthorized] from each of the four operator functions, whatever the
    arguments and whether or not the contract is paused, and its transaction
    changes nothing. *)
Theorem operator_functions_reject_strangers env s :
  ~ authorized env s ->
  (forall i a p b cur src dst,
     bridgeRevenue keccak256 env i a p b cur src dst s = Revert Unauthorized /\
     transact keccak256 env (CallBridgeRevenue i a p b cur src dst) s = s) /\
  (forall i a b,
     bridgeStripeRevenue keccak256 env i a b s = Revert Unauthorized /\
     transact keccak256 env (CallBridgeStripeRevenue i a b) s = s) /\
  (forall sid reason,
     reverseSettlement env sid reason s = Revert Unauthorized /\
     transact keccak256 env (CallReverseSettlement sid reason) s = s) /\
  (forall sid,
     disputeSettlement env sid s = Revert Unauthorized /\
     transact keccak256 env (CallDisputeSettlement sid) s = s).
Proof.
  intros Hn. split_and!; intros.
  - assert (H : bridgeRevenue keccak256 env i a p b cur src dst s = Revert Unauthorized)
      by (unfold bridgeRevenue; by rewrite onlyOperator_unauthorized).
    split; [done|]. eapply transact_revert, dispatch_bridgeRevenue_revert, H.
  - assert (H : bridgeStripeRevenue keccak256 env i a b s = Revert Unauthorized)
      by (unfold bridgeStripeRevenue; by rewrite onlyOperator_unauthorized).
    split; [done|]. eapply transact_revert, dispatch_bridgeStripeRevenue_revert, H.
  - assert (H : reverseSettlement env sid reason s = Revert Unauthorized)
      by (unfold reverseSettlement; by rewrite onlyOperator_unauthorized).
    split; [done|]. eapply transact_revert. cbn [dispatch]. exact H.
  - assert (H : disputeSettlement env sid s = Revert Unauthorized)
      by (unfold disputeSettlement; by rewrite onlyOperator_unauthorized).
    split; [done|]. eapply transact_revert. cbn [dispatch]. exact H.
Qed.

(** X2: a caller other than the owner gets [OwnableUnauthorizedAccount]
    carrying its own address from [setOperator], [setAllocation], [pause] and
    [unpause], whatever the arguments -- the operator included. *)
Theorem admin_functions_reject_non_owner env s :
  msg_sender env <> owner s ->
  (forall a, setOperator env a s = Revert (OwnableUnauthorizedAccount (msg_sender env))) /\
  (forall r l e st,
     setAllocation env r l e st s = Revert (OwnableUnauthorizedAccount (msg_sender env))) /\
  pause env s = Revert (OwnableUnauthorizedAccount (msg_sender env)) /\
  unpause env s = Revert (OwnableUnauthorizedAccount (msg_sender env)).
Proof.
  intros Hne. split_and!; intros;
    unfold setOperator, setAllocation, pause, unpause; by apply onlyOwner_not_owner.
Qed.

(** X3: no transaction sent by anyone but the owner changes the owner, the
    operator, the allocation weights or the pause flag: the operator can
    bridge, reverse and dispute, but cannot reconfigure the bridge. *)
Theorem configuration_changes_need_owner env c s :
  msg_sender env <> owner s ->
  owner (transact keccak256 env c s) = owner s /\
  bridgeOperator (transact keccak256 env c s) = bridgeOperator s /\
  allocation (transact keccak256 env c s) = allocation s /\
  paused (transact keccak256 env c s) = paused s.
Proof.
  intros Hne. unfold transact.
  destruct (dispatch keccak256 env c s) as [[u s']|e] eqn:E; [|done].
  destruct c; cbn [dispatch] in E.
  - apply bind_ok_inv in E as (sid & s1 & E & Hret). unfold ret in Hret. simplify_eq.
    apply bridgeRevenue_ok_inv in E
      as (_ & _ & _ & _ & _ & _ & _ & _ & _ & split & t' & _ & _ & ->). done.
  - apply bind_ok_inv in E as (sid & s1 & E & _).
    destruct (bridgeStripeRevenue_reverts keccak256 env _invoiceId _amount _beneficiary s)
      as [e He]. congruence.
  - apply reverseSettlement_ok_inv in E
      as (_ & _ & _ & entry & split & t' & _ & _ & _ & _ & _ & _ & ->). done.
  - apply disputeSettlement_ok_inv in E as (_ & entry & _ & _ & ->). done.
  - unfold setOperator in E. by apply onlyOwner_ok_inv in E as [? _].
  - unfold setAllocation in E. by apply onlyOwner_ok_inv in E as [? _].
  - unfold pause in E. by apply onlyOwner_ok_inv in E as [? _].
  - unfold unpause in E. by apply onlyOwner_ok_inv in E as [? _].
  - unfold transferOwnership in E. by apply onlyOwner_ok_inv in E as [? _].
  - unfold renounceOwnership in E. by apply onlyOwner_ok_inv in E as [? _].
Qed.

(** X4: for the operator or the owner on the unpaused contract,
    [bridgeRevenue] rejects a zero amount with [ZeroAmount] and, the amount
    being non-zero, a zero beneficiary with [ZeroAddress]; both checks come
    before the duplicate check, so they answer the same on an invoice that
    was already processed. *)
Theorem bridgeRevenue_validates_arguments env s i a p b cur src dst :
  authorized env s -> reentrancyEntered s = false -> paused s = false ->
  bridgeRevenue keccak256 env i 0 p b cur src dst s = Revert ZeroAmount /\
  (a <> 0 -> bridgeRevenue keccak256 env i a p 0 cur src dst s = Revert ZeroAddress).
Proof.
  intros Hauth Hent Hp. split; [|intros Ha]; unfold bridgeRevenue;
    rewrite onlyOperator_authorized by done;
    unfold nonReentrant; rewrite Hent; unfold whenNotPaused;
    cbn [paused set_reentrancyEntered]; rewrite Hp.
  - reflexivity.
  - apply N.eqb_neq in Ha as ->. reflexivity.
Qed.

(** *** Operator rotation *)

Lemma setOperator_ok env a s :
  msg_sender env = owner s -> a <> 0 ->
  setOperator env a s = Ok (tt, set_bridgeOperator a s).
Proof.
  intros Hown Ha. unfold setOperator. rewrite onlyOwner_owner by done.
  apply N.eqb_neq in Ha as ->. reflexivity.
Qed.

(** X5: [setOperator] by the owner rejects the zero address with
    [ZeroAddress]; for any other address it installs the new operator and
    touches nothing else, after which the former operator -- unless it is the
    new one or the owner -- is turned away by [bridgeRevenue],
    [reverseSettlement] and [disputeSettlement] with [Unauthorized], while
    the new operator passes [onlyOperator]. *)
Theorem setOperator_rotates env s _newOperator :
  msg_sender env = owner s ->
  setOperator env 0 s = Revert ZeroAddress /\
  (_newOperator <> 0 ->
   setOperator env _newOperator s = Ok (tt, set_bridgeOperator _newOperator s) /\
   (forall env', msg_sender env' = _newOperator ->
      authorized env' (transact keccak256 env (CallSetOperator _newOperator) s)) /\
   (forall env', msg_sender env' = bridgeOperator s ->
      msg_sender env' <> _newOperator -> msg_sender env' <> owner s ->
      let s' := transact keccak256 env (CallSetOperator _newOperator) s in
      (forall i a p b cur src dst,
         bridgeRevenue keccak256 env' i a p b cur src dst s' = Revert Unauthorized) /\
      (forall sid reason, reverseSettlement env' sid reason s' = Revert Unauthorized) /\
      (forall sid, disputeSettlement env' sid s' = Revert Unauthorized))).
Proof.
  intros Hown. split.
  - unfold setOperator. by rewrite onlyOwner_owner.
  - intros Hnz. pose proof (setOperator_ok env _newOperator s Hown Hnz) as Hok.
    assert (Ht : transact keccak256 env (CallSetOperator _newOperator) s
                 = set_bridgeOperator _newOperator s).
    { unfold transact. cbn [dispatch]. by rewrite Hok. }
    split_and!.
    + done.
    + intros env' Hs. rewrite Ht. left. done.
    + intros env' Hold Hnew Hnown. cbn zeta. rewrite Ht.
      assert (Hn : ~ authorized env' (set_bridgeOperator _newOperator s)).
      { unfold authorized. cbn. tauto. }
      split_and!; intros.
      * unfold bridgeRevenue. by rewrite onlyOperator_unauthorized.
      * unfold reverseSettlement. by rewrite onlyOperator_unauthorized.
      * unfold disputeSettlement. by rewrite onlyOperator_unauthorized.
Qed.

(** *** The circuit breaker, there and back *)

Lemma pause_ok env s :
  msg_sender env = owner s -> paused s = false ->
  pause env s = Ok (tt, set_paused true s).
Proof.
  intros Hown Hp. unfold pause. rewrite onlyOwner_owner by done.
  unfold whenNotPaused. by rewrite Hp.
Qed.

Lemma unpause_ok env s :
  msg_sender env = owner s -> paused s = true ->
  unpause env s = Ok (tt, set_paused false s).
Proof.
  intros Hown Hp. unfold unpause. rewrite onlyOwner_owner by done.
  unfold whenPaused. by rewrite Hp.
Qed.

Lemma set_paused_back s : paused s = false -> set_paused false (set_paused true s) = s.
Proof. destruct s. cbn. by intros ->. Qed.

(** X6: on the unpaused contract the owner's [pause] succeeds and sets the
    flag, a second [pause] fails with [EnforcedPause], [unpause] without a
    preceding [pause] fails with [ExpectedPause], and [pause] followed by the
    owner's [unpause] gives back exactly the state before: every call
    afterwards behaves as if the bridge had never been paused. *)
Theorem pause_unpause_round_trip env env' s :
  msg_sender env = owner s -> msg_sender env' = owner s -> paused s = false ->
  pause env s = Ok (tt, set_paused true s) /\
  paused (transact keccak256 env CallPause s) = true /\
  pause env' (transact keccak256 env CallPause s) = Revert EnforcedPause /\
  unpause env s = Revert ExpectedPause /\
  transact keccak256 env' CallUnpause (transact keccak256 env CallPause s) = s.
Proof.
  intros Hown Hown' Hp. pose proof (pause_ok env s Hown Hp) as Hok.
  assert (Ht : transact keccak256 env CallPause s = set_paused true s).
  { unfold transact. cbn [dispatch]. by rewrite Hok. }
  rewrite Ht. split_and!.
  - done.
  - done.
  - unfold pause. rewrite onlyOwner_owner by done. reflexivity.
  - unfold unpause. rewrite onlyOwner_owner by done. unfold whenPaused. by rewrite Hp.
  - unfold transact. cbn [dispatch]. rewrite unpause_ok by done.
    by apply set_paused_back.
Qed.

End Access.

(** ** Further properties: what the operator functions do *)

Section Operations.

Variable keccak256 : list byte -> bytes32.

(** X7: [disputeSettlement] by the operator or the owner answers
    [SettlementNotFound] for an identifier without a record; for a recorded
    settlement it succeeds whatever the current status and whether or not the
    contract is paused, sets the status to DISPUTED and changes nothing else:
    the other fields of the record, the other records, the invoice index,
    both totals and every token balance stay as they were. *)
Theorem disputeSettlement_only_marks env s _settlementId :
  authorized env s ->
  (bridgedAt (getSettlement s _settlementId) = 0 ->
     disputeSettlement env _settlementId s = Revert (SettlementNotFound _settlementId)) /\
  (bridgedAt (getSettlement s _settlementId) <> 0 ->
     exists s',
       disputeSettlement env _settlementId s = Ok (tt, s') /\
       getSettlement s' _settlementId
         = set_status DISPUTED (getSettlement s _settlementId) /\
       (forall sid', sid' <> _settlementId -> getSettlement s' sid' = getSettlement s sid') /\
       invoiceToSettlement s' = invoiceToSettlement s /\
       totalRevenueBridged s' = totalRevenueBridged s /\
       totalRevenueReversed s' = totalRevenueReversed s /\
       nbptToken s' = nbptToken s /\
       paused s' = paused s).
Proof.
  intros Hauth. unfold disputeSettlement. rewrite onlyOperator_authorized by done.
  unfold bind, get, modify, revert, getSettlement.
  split; intros Hb.
  - apply N.eqb_eq in Hb. by rewrite Hb.
  - apply N.eqb_neq in Hb. rewrite Hb. eexists. split; [reflexivity|].
    split_and!; try reflexivity.
    + cbn [settlements set_settlements]. by rewrite lookup_insert_eq.
    + intros sid' Hne. cbn [settlements set_settlements]. by rewrite lookup_insert_ne.
Qed.

(** X8: whenever [bridgeRevenue] returns, the record read back under the
    returned identifier carries exactly the arguments, the status SETTLED and
    the block timestamp as both [bridgedAt] and [settledAt]; the invoice
    looks up to that identifier; [totalRevenueBridged] has grown by the
    amount and the nonce by one; and the beneficiary's four partition
    balances have grown by the amount in total, no other account's balance
    having moved. *)
Theorem bridgeRevenue_postcondition env _invoiceId _amount _payer _beneficiary _currency
    _sourceSystem _destinationSystem s sid s' :
  bridgeRevenue keccak256 env _invoiceId _amount _payer _beneficiary _currency
    _sourceSystem _destinationSystem s = Ok (sid, s') ->
  getSettlement s' sid
    = {| invoiceId := _invoiceId; payer := _payer; beneficiary := _beneficiary;
         amount := _amount; currency := _currency; sourceSystem := _sourceSystem;
         destinationSystem := _destinationSystem; settlementId := sid;
         status := SETTLED; bridgedAt := block_timestamp env;
         settledAt := block_timestamp env |} /\
  getSettlementByInvoice keccak256 s' _invoiceId = sid /\
  totalRevenueBridged s' = totalRevenueBridged s + _amount /\
  totalRevenueReversed s' = totalRevenueReversed s /\
  _settlementNonce s' = _settlementNonce s + 1 /\
  totalBalance (nbptToken s') _beneficiary
    = totalBalance (nbptToken s) _beneficiary + _amount /\
  (forall q a, a <> _beneficiary ->
     balanceOfByPartition (nbptToken s') q a = balanceOfByPartition (nbptToken s) q a).
Proof.
  intros H. apply bridgeRevenue_ok_inv in H
    as (_ & _ & _ & _ & _ & _ & _ & _ & _ & split & t' & Hsplit & Hbal & ->).
  destruct split as [[[r l] e] st].
  apply _calculateAllocations_inv in Hsplit as (_ & _ & _ & Hsum).
  split_and!; try reflexivity.
  - unfold getSettlement. cbn [settlements afterBridge]. by rewrite lookup_insert_eq.
  - unfold getSettlementByInvoice. cbn [invoiceToSettlement afterBridge].
    by rewrite lookup_insert_eq.
  - cbn [nbptToken afterBridge]. unfold totalBalance. rewrite !Hbal.
    rewrite !decide_True by done. cbn [shareOf]. lia.
  - intros q a Hne. cbn [nbptToken afterBridge]. rewrite Hbal.
    rewrite decide_False by done. lia.
Qed.

(** X9: whenever [reverseSettlement] returns, the settlement was SETTLED and
    is now REVERSED with its other fields untouched, no other record and no
    entry of the invoice index has changed, [totalRevenueReversed] has grown by
    the recorded amount while [totalRevenueBridged] is unchanged, and the
    beneficiary's four partition balances have shrunk by the recorded amount
    in total -- whatever the allocation weights are at that moment -- no other
    account's balance having moved. *)
Theorem reverseSettlement_postcondition env _settlementId _reason s u s' :
  reverseSettlement env _settlementId _reason s = Ok (u, s') ->
  status (getSettlement s _settlementId) = SETTLED /\
  getSettlement s' _settlementId
    = set_status REVERSED (getSettlement s _settlementId) /\
  (forall sid', sid' <> _settlementId -> getSettlement s' sid' = getSettlement s sid') /\
  invoiceToSettlement s' = invoiceToSettlement s /\
  totalRevenueReversed s'
    = totalRevenueReversed s + amount (getSettlement s _settlementId) /\
  totalRevenueBridged s' = totalRevenueBridged s /\
  totalBalance (nbptToken s') (beneficiary (getSettlement s _settlementId))
    + amount (getSettlement s _settlementId)
    = totalBalance (nbptToken s) (beneficiary (getSettlement s _settlementId)) /\
  (forall q a, a <> beneficiary (getSettlement s _settlementId) ->
     balanceOfByPartition (nbptToken s') q a = balanceOfByPartition (nbptToken s) q a).
Proof.
  intros H. apply reverseSettlement_ok_inv in H
    as (_ & _ & _ & entry & split & t' & Hentry & _ & Hst & _ & Hsplit & Hbal & ->).
  destruct split as [[[r l] e] st].
  apply _calculateAllocations_inv in Hsplit as (_ & _ & _ & Hsum).
  unfold getSettlement. rewrite Hentry. cbn [default from_option id].
  split_and!; try reflexivity.
  - done.
  - cbn [settlements afterReverse]. by rewrite lookup_insert_eq.
  - intros sid' Hne. cbn [settlements afterReverse]. by rewrite lookup_insert_ne.
  - cbn [nbptToken afterReverse]. unfold totalBalance.
    rewrite <- !(Hbal _ (beneficiary entry)). rewrite !decide_True by done.
    cbn [shareOf]. lia.
  - intros q a Hne. cbn [nbptToken afterReverse]. rewrite <- (Hbal q a).
    rewrite decide_False by done. lia.
Qed.

End Operations.

(** ** Further properties: when the operator functions return *)

Section Returns.

Variable keccak256 : list byte -> bytes32.


Lemma when_burn_ok p a amt s :
  amt <= balanceOfByPartition (nbptToken s) p a ->
  exists t',
    when_ (0 <? amt) (token_call (burnFromPartition p a amt)) s = Ok (tt, set_nbptToken t' s) /\
    forall p' a', balanceOfByPartition t' p' a'
        + (if decide (p' = p /\ a' = a) then amt else 0)
      = balanceOfByPartition (nbptToken s) p' a'.
Proof.
  intros Hle.
  destruct (when_ (0 <? amt) (token_call (burnFromPartition p a amt)) s)
    as [[[] s']|e] eqn:E.
  - destruct (when_burn_inv _ _ _ _ _ _ E) as (t' & -> & B). by exists t'.
  - exfalso. unfold when_, token_call, ret, burnFromPartition in E.
    destruct (0 <? amt); [|done].
    destruct (N.ltb_spec (balanceOfByPartition (nbptToken s) p a) amt); [lia|done].
Qed.

Lemma decide_other_partition (p p' : Partition) (a : address) (x : N) :
  p' <> p -> (if decide (p' = p /\ a = a) then x else 0) = 0.
Proof. intros Hne. rewrite decide_False; [done|]. tauto. Qed.


(** The four burns go through as soon as each of the account's balances
    covers its share. *)
Lemma _burnFromPartitions_ok a r l e st s :
  (forall p, shareOf (r, l, e, st) p <= balanceOfByPartition (nbptToken s) p a) ->
  exists s', _burnFromPartitions a r l e st s = Ok (tt, s').
Proof.
  intros Hcover. unfold _burnFromPartitions.
  destruct (when_burn_ok PARTITION_RESERVE a r s) as (t1 & E1 & B1).
  { apply (Hcover PARTITION_RESERVE). }
  unfold bind at 1. rewrite E1.
  destruct (when_burn_ok PARTITION_LIQUIDITY a l (set_nbptToken t1 s)) as (t2 & E2 & B2).
  { cbn [nbptToken set_nbptToken].
    pose proof (B1 PARTITION_LIQUIDITY a) as H1.
    rewrite decide_other_partition in H1 by done.
    pose proof (Hcover PARTITION_LIQUIDITY) as Hc. cbn [shareOf] in Hc. lia. }
  unfold bind at 1. rewrite E2. cbn [nbptToken set_nbptToken] in B2.
  destruct (when_burn_ok PARTITION_ENTERPRISE a e (set_nbptToken t2 (set_nbptToken t1 s)))
    as (t3 & E3 & B3).
  { cbn [nbptToken set_nbptToken].
    pose proof (B1 PARTITION_ENTERPRISE a) as H1. pose proof (B2 PARTITION_ENTERPRISE a) as H2.
    rewrite decide_other_partition in H1, H2 by done.
    pose proof (Hcover PARTITION_ENTERPRISE) as Hc. cbn [shareOf] in Hc. lia. }
  unfold bind at 1. rewrite E3. cbn [nbptToken set_nbptToken] in B3.
  destruct (when_burn_ok PARTITION_STAKING a st
              (set_nbptToken t3 (set_nbptToken t2 (set_nbptToken t1 s))))
    as (t4 & E4 & B4).
  { cbn [nbptToken set_nbptToken].
    pose proof (B1 PARTITION_STAKING a) as H1. pose proof (B2 PARTITION_STAKING a) as H2.
    pose proof (B3 PARTITION_STAKING a) as H3.
    rewrite decide_other_partition in H1, H2, H3 by done.
    pose proof (Hcover PARTITION_STAKING) as Hc. cbn [shareOf] in Hc. lia. }
  rewrite E4. by eexists.
Qed.



Lemma reverseSettlement_returns env sid reason s entry split :
  authorized env s -> reentrancyEntered s = false -> paused s = false ->
  settlements s !! sid = Some entry ->
  bridgedAt entry <> 0 -> status entry = SETTLED ->
  totalRevenueReversed s + amount entry <= MAX_UINT256 ->
  _calculateAllocations (allocation s) (amount entry) = Ok split ->
  (forall q, shareOf split q <= balanceOfByPartition (nbptToken s) q (beneficiary entry)) ->
  exists s', reverseSettlement env sid reason s = Ok (tt, s').
Proof.
  intros Hauth Hent Hp Hentry Hb Hst Htot Hsplit Hcover.
  destruct split as [[[r l] e] st].
  unfold reverseSettlement. rewrite onlyOperator_authorized by done.
  unfold nonReentrant. rewrite Hent. unfold whenNotPaused.
  cbn [paused set_reentrancyEntered]. rewrite Hp.
  unfold bind at 1, get at 1. cbn [settlements set_reentrancyEntered].
  rewrite Hentry. cbn [default from_option id].
  apply N.eqb_neq in Hb as ->. rewrite bool_decide_eq_true_2 by done. cbn [negb].
  unfold bind at 1, modify at 1. unfold bind at 1, get at 1.
  unfold bind at 1, lift at 1.
  cbn [totalRevenueReversed set_settlements set_reentrancyEntered amount set_status].
  rewrite checked_add_ok by done.
  unfold bind at 1, modify at 1. unfold bind at 1, get at 1.
  unfold bind at 1, lift at 1.
  cbn [allocation set_totalRevenueReversed set_settlements set_reentrancyEntered].
  rewrite Hsplit. cbn [beneficiary set_status].
  match goal with
  | |- context [_burnFromPartitions ?a r l e st ?st0] =>
      destruct (_burnFromPartitions_ok a r l e st st0) as [s5 E5]; [exact Hcover|]
  end.
  rewrite E5. by eexists.
Qed.

End Returns.

(** ** Further properties: liveness, totals, deployment, rounding *)

Section Liveness.

Variable keccak256 : list byte -> bytes32.


Lemma settledAmount_le_settledSum m k e :
  m !! k = Some e -> settledAmount e <= settledSum m.
Proof. intros Hk. rewrite (settledSum_delete m k e Hk). lia. Qed.


(** X11: a settlement can be reversed right after it was bridged: from a
    reachable state, once [bridgeRevenue] has returned in a block whose
    timestamp is not zero, [reverseSettlement] of the returned identifier by
    the operator or the owner returns.  In a block with timestamp zero the
    record is stored all the same but reads as missing: reversal and dispute
    both answer [SettlementNotFound]. *)
Theorem fresh_settlement_is_reversible env0 _invoiceId _amount _payer _beneficiary _currency
    _sourceSystem _destinationSystem s0 sid s1 env2 _reason :
  reachable keccak256 s0 ->
  bridgeRevenue keccak256 env0 _invoiceId _amount _payer _beneficiary _currency
    _sourceSystem _destinationSystem s0 = Ok (sid, s1) ->
  authorized env2 s1 ->
  (block_timestamp env0 <> 0 ->
     exists s3, reverseSettlement env2 sid _reason s1 = Ok (tt, s3)) /\
  (block_timestamp env0 = 0 ->
     statusOf s1 sid = Some SETTLED /\
     reverseSettlement env2 sid _reason s1 = Revert (SettlementNotFound sid) /\
     disputeSettlement env2 sid s1 = Revert (SettlementNotFound sid)).
Proof.
  intros Hr0 Hbridge Hauth.
  assert (Hr1 : reachable keccak256 s1).
  { rewrite <- (bridgeRevenue_transact _ _ _ _ _ _ _ _ _ _ _ _ Hbridge).
    eapply reachable_step; [done|constructor]. }
  pose proof (reachable_totals keccak256 s1 Hr1) as Htot1.
  apply bridgeRevenue_ok_inv in Hbridge
    as (_ & _ & Hp & _ & _ & _ & _ & _ & Htot & split & t1 & Hsplit & Hbal & Hs1).
  assert (He1 : settlements s1 !! sid
                = Some (entryOf env0 _invoiceId _amount _payer _beneficiary _currency
                          _sourceSystem _destinationSystem sid)).
  { rewrite Hs1. cbn [settlements afterBridge]. apply lookup_insert_eq. }
  assert (Hent1 : reentrancyEntered s1 = false) by (by rewrite Hs1).
  assert (Hp1 : paused s1 = false) by (by rewrite Hs1).
  split.
  - intros Hts.
    eapply (reverseSettlement_returns env2 sid _reason s1 _ split); try done.
    + pose proof (settledAmount_le_settledSum _ _ _ He1) as Hle.
      unfold settledAmount in Hle. cbn [entryOf status amount] in *.
      rewrite decide_True in Hle by done.
      assert (totalRevenueBridged s1 = totalRevenueBridged s0 + _amount) by (by rewrite Hs1).
      lia.
    + rewrite Hs1. cbn [allocation afterBridge entryOf amount]. done.
    + intros q. rewrite Hs1. cbn [nbptToken afterBridge entryOf beneficiary].
      rewrite Hbal, decide_True by done. lia.
  - intros Hts. split_and!.
    + unfold statusOf. by rewrite He1.
    + unfold reverseSettlement. rewrite onlyOperator_authorized by done.
      unfold nonReentrant. rewrite Hent1. unfold whenNotPaused.
      cbn [paused set_reentrancyEntered]. rewrite Hp1.
      unfold bind, get. cbn [settlements set_reentrancyEntered]. rewrite He1.
      cbn [default from_option id entryOf bridgedAt]. by rewrite Hts.
    + unfold disputeSettlement. rewrite onlyOperator_authorized by done.
      unfold bind, get. rewrite He1.
      cbn [default from_option id entryOf bridgedAt]. by rewrite Hts.
Qed.

Lemma effect_monotone s s' :
  effect keccak256 s s' ->
  totalRevenueBridged s <= totalRevenueBridged s' /\
  totalRevenueReversed s <= totalRevenueReversed s' /\
  _settlementNonce s <= _settlementNonce s' /\
  this s' = this s.
Proof.
  intros He. destruct He; cbn; split_and!; try done; lia.
Qed.

(** X12: along any sequence of transactions, [totalRevenueBridged],
    [totalRevenueReversed] and the settlement nonce never decrease; a step
    that changes [totalRevenueBridged] also advances the nonce by exactly one
    and leaves [totalRevenueReversed] alone, and a step that changes
    [totalRevenueReversed] leaves the other two alone. *)
Theorem totals_never_decrease :
  (forall s s', rtc (step keccak256) s s' ->
     totalRevenueBridged s <= totalRevenueBridged s' /\
     totalRevenueReversed s <= totalRevenueReversed s' /\
     _settlementNonce s <= _settlementNonce s') /\
  (forall s s', step keccak256 s s' ->
     (totalRevenueBridged s' <> totalRevenueBridged s ->
        _settlementNonce s' = _settlementNonce s + 1 /\
        totalRevenueReversed s' = totalRevenueReversed s) /\
     (totalRevenueReversed s' <> totalRevenueReversed s ->
        _settlementNonce s' = _settlementNonce s /\
        totalRevenueBridged s' = totalRevenueBridged s)).
Proof.
  split.
  - intros s s' Hs. induction Hs as [s|s s1 s' H1 Hs IH]; [done|].
    apply step_effect in H1 as [->|He]; [done|].
    apply effect_monotone in He. lia.
  - intros s s' Hs. apply step_effect in Hs as [->|He]; [done|].
    destruct He; cbn; split; intros; try done; try lia.
Qed.

(** X13: the constructor reverts when the token, the operator or the owner
    is the zero address, and otherwise deploys a bridge with the given
    operator and owner, the 40/30/20/10 allocation, both totals at zero, not
    paused, with no invoice processed and no settlement recorded, on which
    [netRevenue] is zero. *)
Theorem constructor_deploys self token _nbptToken _operator _owner :
  ((_nbptToken = 0 \/ _operator = 0 \/ _owner = 0) ->
     exists e, constructor self token _nbptToken _operator _owner = Revert e) /\
  (_nbptToken <> 0 -> _operator <> 0 -> _owner <> 0 ->
     exists s,
       constructor self token _nbptToken _operator _owner = Ok s /\
       owner s = _owner /\ bridgeOperator s = _operator /\
       allocation s = {| reserveBps := 4000; liquidityBps := 3000;
                         enterpriseBps := 2000; stakingBps := 1000 |} /\
       totalRevenueBridged s = 0 /\ totalRevenueReversed s = 0 /\
       paused s = false /\ nbptToken s = token /\
       (forall i, isInvoiceProcessed keccak256 s i = false) /\
       (forall sid, getSettlement s sid = zeroEntry) /\
       netRevenue s = Ok 0).
Proof.
  split.
  - unfold constructor. intros [-> | [-> | ->]].
    + destruct (_owner =? 0); by eexists.
    + destruct (_owner =? 0); [by eexists|]. destruct (_nbptToken =? 0); by eexists.
    + by eexists.
  - intros Ht Ho Hw. unfold constructor.
    apply N.eqb_neq in Ht as ->. apply N.eqb_neq in Ho as ->. apply N.eqb_neq in Hw as ->.
    eexists. split; [reflexivity|]. split_and!; reflexivity.
Qed.

End Liveness.

(** X14: the staking share never falls short of its nominal share and
    exceeds it by at most three base units: whenever the weights sum to 10000
    and the split is returned, [amount * stakingBps / 10000 <= staking <=
    amount * stakingBps / 10000 + 3], the three other shares being exactly
    their truncated nominal shares. *)
Theorem staking_absorbs_at_most_three_units cfg a r l e st :
  weightsSum cfg = 10000 ->
  _calculateAllocations cfg a = Ok (r, l, e, st) ->
  a * stakingBps cfg / 10000 <= st /\ st <= a * stakingBps cfg / 10000 + 3.
Proof.
  unfold weightsSum. intros Hw H.
  apply _calculateAllocations_inv in H as (-> & -> & -> & Hsum).
  assert (Hprod : a * reserveBps cfg + a * liquidityBps cfg + a * enterpriseBps cfg
                  + a * stakingBps cfg = a * 10000) by nia.
  pose proof (N.Div0.mul_div_le (a * reserveBps cfg) 10000) as L1.
  pose proof (N.Div0.mul_div_le (a * liquidityBps cfg) 10000) as L2.
  pose proof (N.Div0.mul_div_le (a * enterpriseBps cfg) 10000) as L3.
  pose proof (N.Div0.mul_div_le (a * stakingBps cfg) 10000) as L4.
  pose proof (N.mul_succ_div_gt (a * reserveBps cfg) 10000 ltac:(done)) as U1.
  pose proof (N.mul_succ_div_gt (a * liquidityBps cfg) 10000 ltac:(done)) as U2.
  pose proof (N.mul_succ_div_gt (a * enterpriseBps cfg) 10000 ltac:(done)) as U3.
  pose proof (N.mul_succ_div_gt (a * stakingBps cfg) 10000 ltac:(done)) as U4.
  revert Hsum L1 L2 L3 L4 U1 U2 U3 U4.
  generalize (a * reserveBps cfg / 10000) (a * liquidityBps cfg / 10000)
    (a * enterpriseBps cfg / 10000) (a * stakingBps cfg / 10000).
  revert Hprod.
  generalize (a * reserveBps cfg) (a * liquidityBps cfg) (a * enterpriseBps cfg)
    (a * stakingBps cfg).
  intros. lia.
Qed.

(** ** Further properties: the ledger under an ideal hash *)

Lemma encode_string_inj s1 s2 : encode_string s1 = encode_string s2 -> s1 = s2.
Proof.
  unfold encode_string. intros H. apply (f_equal string_of_list_byte) in H.
  by rewrite !string_of_list_byte_of_string in H.
Qed.

Lemma amountSum_insert_fresh m k e :
  m !! k = None -> amountSum (<[k := e]> m) = amountSum m + amount e.
Proof.
  intros Hk. unfold amountSum. rewrite map_fold_insert_L; [done| |done].
  intros. lia.
Qed.

Lemma amountSum_restatus m k e st :
  m !! k = Some e -> amountSum (<[k := set_status st e]> m) = amountSum m.
Proof.
  intros Hk. rewrite <- insert_delete_eq.
  rewrite amountSum_insert_fresh by apply lookup_delete_eq.
  unfold amountSum at 2. rewrite (map_fold_delete_L _ _ k e m); [done| |done].
  intros. lia.
Qed.

Section Books.

Variable keccak256 : list byte -> bytes32.
Hypothesis keccak256_inj : forall x y, keccak256 x = keccak256 y -> x = y.

(** X15: in every reachable state [totalRevenueBridged] is the sum of the
    amounts of all recorded settlements, reversed and disputed ones included,
    and the number of recorded settlements is the settlement nonce. *)
Theorem bridged_total_is_sum_of_records s :
  reachable keccak256 s ->
  totalRevenueBridged s = amountSum (settlements s) /\
  N.of_nat (size (settlements s)) = _settlementNonce s.
Proof.
  revert s. apply (reachable_invariant keccak256 (fun s =>
    totalRevenueBridged s = amountSum (settlements s) /\
    N.of_nat (size (settlements s)) = _settlementNonce s)).
  - intros * Hc. apply constructor_inv in Hc as ->. cbn. split.
    + unfold amountSum. by rewrite map_fold_empty.
    + by rewrite map_size_empty.
  - intros s s' Hr [IH1 IH2] He.
    pose proof (reachable_wellFormed keccak256 s Hr) as Hwf.
    destruct He; try (split; [exact IH1|exact IH2]).
    + cbn [totalRevenueBridged settlements _settlementNonce afterBridge].
      assert (Hfresh : settlements s !! sid = None)
        by (subst sid; by apply next_settlementId_fresh).
      rewrite amountSum_insert_fresh, map_size_insert_None by done.
      cbn [entryOf amount]. split; lia.
    + cbn [totalRevenueBridged settlements _settlementNonce afterReverse].
      rewrite amountSum_restatus by done.
      rewrite map_size_insert_Some by done. done.
    + cbn [totalRevenueBridged settlements _settlementNonce set_settlements].
      rewrite amountSum_restatus by done.
      rewrite map_size_insert_Some by done. done.
Qed.

(** X16: a recorded settlement is immutable history but for its status: in
    every state reached later the record under the same identifier has the
    same invoice, payer, beneficiary, amount, currency, source and
    destination tags, identifier and timestamps (a reversal does not even
    touch [settledAt]). *)
Theorem settlement_records_are_immutable s s' sid e :
  reachable keccak256 s -> rtc (step keccak256) s s' ->
  settlements s !! sid = Some e ->
  settlements s' !! sid = Some (getSettlement s' sid) /\
  invoiceId (getSettlement s' sid) = invoiceId e /\
  payer (getSettlement s' sid) = payer e /\
  beneficiary (getSettlement s' sid) = beneficiary e /\
  amount (getSettlement s' sid) = amount e /\
  currency (getSettlement s' sid) = currency e /\
  sourceSystem (getSettlement s' sid) = sourceSystem e /\
  destinationSystem (getSettlement s' sid) = destinationSystem e /\
  settlementId (getSettlement s' sid) = settlementId e /\
  bridgedAt (getSettlement s' sid) = bridgedAt e /\
  settledAt (getSettlement s' sid) = settledAt e.
Proof.
  intros Hr Hs He.
  destruct (steps_entry_kept keccak256 keccak256_inj s s' sid e Hr Hs He) as (e' & He' & Hsame).
  unfold getSettlement. rewrite He'. cbn [default from_option id].
  rewrite Hsame. done.
Qed.

(** X17: settlement identifiers are never reused: from a reachable state,
    the identifier [bridgeRevenue] returns had no record before, the call
    leaves every other record as it was, and no later [bridgeRevenue] returns
    the same identifier again. *)
Theorem settlement_ids_are_fresh env i a p b cur src dst s0 sid s1 :
  reachable keccak256 s0 ->
  bridgeRevenue keccak256 env i a p b cur src dst s0 = Ok (sid, s1) ->
  settlements s0 !! sid = None /\
  (forall sid', sid' <> sid -> settlements s1 !! sid' = settlements s0 !! sid') /\
  (forall s2 env' i' a' p' b' cur' src' dst' sid' s3,
     rtc (step keccak256) s1 s2 ->
     bridgeRevenue keccak256 env' i' a' p' b' cur' src' dst' s2 = Ok (sid', s3) ->
     sid' <> sid).
Proof.
  intros Hr0 Hbridge.
  assert (Hr1 : reachable keccak256 s1).
  { rewrite <- (bridgeRevenue_transact _ _ _ _ _ _ _ _ _ _ _ _ Hbridge).
    eapply reachable_step; [done|constructor]. }
  pose proof (reachable_wellFormed keccak256 s0 Hr0) as Hwf0.
  apply bridgeRevenue_ok_inv in Hbridge
    as (_ & _ & _ & _ & _ & _ & Hn & Hsid & _ & split & t1 & _ & _ & Hs1).
  assert (Hfresh : settlements s0 !! sid = None)
    by (subst sid; by apply next_settlementId_fresh).
  split_and!.
  - done.
  - intros sid' Hne. rewrite Hs1. cbn [settlements afterBridge].
    by rewrite lookup_insert_ne.
  - intros s2 env' i' a' p' b' cur' src' dst' sid' s3 Hsteps Hbridge2.
    assert (Hr2 : reachable keccak256 s2) by (by eapply reachable_steps).
    pose proof (reachable_wellFormed keccak256 s2 Hr2) as Hwf2.
    assert (He1 : is_Some (settlements s1 !! sid)).
    { rewrite Hs1. cbn [settlements afterBridge]. rewrite lookup_insert_eq. by eexists. }
    destruct He1 as [e1 He1].
    destruct (steps_entry_kept keccak256 keccak256_inj s1 s2 sid e1 Hr1 Hsteps He1)
      as (e2 & He2 & _).
    apply bridgeRevenue_ok_inv in Hbridge2
      as (_ & _ & _ & _ & _ & _ & Hn2 & Hsid2 & _).
    intros ->. rewrite Hsid2 in He2.
    rewrite next_settlementId_fresh in He2 by done. done.
Qed.

(** X18: a dispute is final for the bridge: from a reachable state, once
    [disputeSettlement] has returned for a settlement, [reverseSettlement] of
    that settlement reverts in every later state and for every caller -- for
    the operator or the owner on the unpaused contract with
    [InvalidSettlementStatus] reporting DISPUTED -- so the tokens issued for
    it can no longer be burnt through the bridge. *)
Theorem disputed_settlement_cannot_be_reversed env sid s u s1 s2 :
  reachable keccak256 s ->
  disputeSettlement env sid s = Ok (u, s1) ->
  rtc (step keccak256) s1 s2 ->
  statusOf s2 sid = Some DISPUTED /\
  (forall env' reason, exists e, reverseSettlement env' sid reason s2 = Revert e) /\
  (forall env' reason, transact keccak256 env' (CallReverseSettlement sid reason) s2 = s2) /\
  (forall env' reason, authorized env' s2 -> paused s2 = false ->
     reverseSettlement env' sid reason s2
       = Revert (InvalidSettlementStatus sid DISPUTED SETTLED)).
Proof.
  intros Hr Hd Hsteps.
  assert (Hr1 : reachable keccak256 s1).
  { assert (transact keccak256 env (CallDisputeSettlement sid) s = s1) as <-
      by (unfold transact, dispatch; by rewrite Hd).
    eapply reachable_step; [done|constructor]. }
  assert (Hr2 : reachable keccak256 s2) by (by eapply reachable_steps).
  apply disputeSettlement_ok_inv in Hd as (_ & entry & Hentry & Hb & ->).
  set (s1 := set_settlements _ s) in *.
  assert (He1 : settlements s1 !! sid = Some (set_status DISPUTED entry)).
  { subst s1. cbn [settlements set_settlements]. by rewrite lookup_insert_eq. }
  assert (Hst1 : statusOf s1 sid = Some DISPUTED) by (unfold statusOf; by rewrite He1).
  pose proof (steps_disputed_stays keccak256 keccak256_inj s1 s2 sid Hr1 Hsteps Hst1) as Hst2.
  destruct (steps_entry_kept keccak256 keccak256_inj s1 s2 sid _ Hr1 Hsteps He1)
    as (e2 & He2 & Hsame).
  assert (Hstatus : status (getSettlement s2 sid) = DISPUTED).
  { unfold statusOf in Hst2. unfold getSettlement. rewrite He2 in *.
    cbn in *. congruence. }
  assert (Hne : status (getSettlement s2 sid) <> SETTLED) by (rewrite Hstatus; done).
  assert (Hb2 : bridgedAt (getSettlement s2 sid) <> 0).
  { unfold getSettlement. rewrite He2. cbn [default from_option id].
    rewrite Hsame. done. }
  split_and!.
  - done.
  - intros. by apply reverseSettlement_not_settled_reverts.
  - intros env' reason.
    destruct (reverseSettlement_not_settled_reverts env' sid reason s2 Hne) as [e He].
    eapply transact_revert. cbn [dispatch]. exact He.
  - intros env' reason Hauth Hp.
    rewrite reverseSettlement_checks;
      [|done|by apply (reachable_not_entered keccak256)|done|done].
    apply N.eqb_neq in Hb2 as ->. by rewrite Hstatus.
Qed.

End Books.

Section Index.

Variable keccak256 : list byte -> bytes32.
Hypothesis keccak256_inj : forall x y, keccak256 x = keccak256 y -> x = y.
Hypothesis keccak256_nonzero : forall x, keccak256 x <> 0.

Lemma reachable_index s :
  reachable keccak256 s ->
  (forall h sid, invoiceToSettlement s !! h = Some sid ->
     sid <> 0 /\
     exists e, settlements s !! sid = Some e /\ keccak256 (encode_string (invoiceId e)) = h) /\
  (forall sid e, settlements s !! sid = Some e ->
     settlementId e = sid /\
     invoiceToSettlement s !! keccak256 (encode_string (invoiceId e)) = Some sid).
Proof.
  revert s. apply (reachable_invariant keccak256 (fun s =>
    (forall h sid, invoiceToSettlement s !! h = Some sid ->
       sid <> 0 /\
       exists e, settlements s !! sid = Some e
                 /\ keccak256 (encode_string (invoiceId e)) = h) /\
    (forall sid e, settlements s !! sid = Some e ->
       settlementId e = sid /\
       invoiceToSettlement s !! keccak256 (encode_string (invoiceId e)) = Some sid))).
  - intros * Hc. apply constructor_inv in Hc as ->. cbn. split; intros *.
    + by rewrite lookup_empty.
    + by rewrite lookup_empty.
  - intros s s' Hr [P1 P2] He.
    pose proof (reachable_wellFormed keccak256 s Hr) as Hwf.
    destruct He; try (split; [exact P1|exact P2]).
    + assert (Hfresh : settlements s !! sid = None)
        by (subst sid; by apply (next_settlementId_fresh keccak256 keccak256_inj)).
      assert (Hnz : sid <> 0) by (subst sid; apply keccak256_nonzero).
      assert (Hfree : invoiceToSettlement s !! keccak256 (encode_string i) = None).
      { destruct (invoiceToSettlement s !! _) as [x|] eqn:Hx; [|done].
        destruct (P1 _ _ Hx) as [Hxz _].
        match goal with H : isInvoiceProcessed _ _ _ = false |- _ =>
          unfold isInvoiceProcessed in H; rewrite Hx in H; cbn in H;
          apply negb_false_iff, N.eqb_eq in H end.
        done. }
      cbn [invoiceToSettlement settlements afterBridge]. split.
      * intros h sid'. rewrite lookup_insert_Some. intros [[<- <-]|[Hne Hh]].
        -- split; [done|]. eexists. rewrite lookup_insert_eq. split; [done|]. done.
        -- destruct (P1 _ _ Hh) as [Hz (e & He & Hhash)]. split; [done|].
           exists e. split; [|done]. rewrite lookup_insert_ne; [done|]. congruence.
      * intros sid' e'. rewrite lookup_insert_Some. intros [[<- <-]|[Hne He']].
        -- cbn [entryOf settlementId invoiceId]. split; [done|]. by rewrite lookup_insert_eq.
        -- destruct (P2 _ _ He') as [Hid Hidx]. split; [done|].
           rewrite lookup_insert_ne; [done|]. congruence.
    + cbn [invoiceToSettlement settlements afterReverse]. split.
      * intros h sid' Hh. destruct (P1 _ _ Hh) as [Hz (e & He & Hhash)]. split; [done|].
        destruct (decide (sid = sid')) as [<-|Hne].
        -- rewrite lookup_insert_eq. eexists. split; [done|]. simplify_eq. done.
        -- rewrite lookup_insert_ne by done. by exists e.
      * intros sid' e'. rewrite lookup_insert_Some. intros [[<- <-]|[Hne He']].
        -- cbn [settlementId invoiceId set_status]. by apply P2.
        -- by apply P2.
    + cbn [invoiceToSettlement settlements set_settlements]. split.
      * intros h sid' Hh. destruct (P1 _ _ Hh) as [Hz (e & He & Hhash)]. split; [done|].
        destruct (decide (sid = sid')) as [<-|Hne].
        -- rewrite lookup_insert_eq. eexists. split; [done|]. simplify_eq. done.
        -- rewrite lookup_insert_ne by done. by exists e.
      * intros sid' e'. rewrite lookup_insert_Some. intros [[<- <-]|[Hne He']].
        -- cbn [settlementId invoiceId set_status]. by apply P2.
        -- by apply P2.
Qed.

(** X19: the invoice index and the ledger agree in every reachable state:
    a processed invoice looks up to a recorded settlement that carries that
    very invoice and that identifier; every recorded settlement is stored
    under its own [settlementId], which is not zero, and is the one its
    invoice looks up to; hence two different settlements never carry the
    same invoice. *)
Theorem index_and_ledger_agree s :
  reachable keccak256 s ->
  (forall i, isInvoiceProcessed keccak256 s i = true ->
     settlements s !! getSettlementByInvoice keccak256 s i
       = Some (getSettlement s (getSettlementByInvoice keccak256 s i)) /\
     invoiceId (getSettlement s (getSettlementByInvoice keccak256 s i)) = i /\
     settlementId (getSettlement s (getSettlementByInvoice keccak256 s i))
       = getSettlementByInvoice keccak256 s i) /\
  (forall sid e, settlements s !! sid = Some e ->
     sid <> 0 /\ settlementId e = sid /\
     isInvoiceProcessed keccak256 s (invoiceId e) = true /\
     getSettlementByInvoice keccak256 s (invoiceId e) = sid) /\
  (forall sid1 e1 sid2 e2,
     settlements s !! sid1 = Some e1 -> settlements s !! sid2 = Some e2 ->
     invoiceId e1 = invoiceId e2 -> sid1 = sid2).
Proof.
  intros Hr. destruct (reachable_index s Hr) as [P1 P2].
  assert (Q2 : forall sid e, settlements s !! sid = Some e ->
     sid <> 0 /\ settlementId e = sid /\
     isInvoiceProcessed keccak256 s (invoiceId e) = true /\
     getSettlementByInvoice keccak256 s (invoiceId e) = sid).
  { intros sid e He. destruct (P2 _ _ He) as [Hid Hidx].
    destruct (P1 _ _ Hidx) as [Hz _].
    unfold isInvoiceProcessed, getSettlementByInvoice. rewrite Hidx. cbn.
    split_and!; try done. by apply negb_true_iff, N.eqb_neq. }
  split_and!.
  - intros i Hi. unfold isInvoiceProcessed in Hi. unfold getSettlementByInvoice.
    destruct (invoiceToSettlement s !! keccak256 (encode_string i)) as [sid|] eqn:Hidx;
      [|done].
    cbn [default from_option id].
    destruct (P1 _ _ Hidx) as [Hz (e & He & Hhash)].
    apply keccak256_inj, encode_string_inj in Hhash.
    destruct (P2 _ _ He) as [Hid _].
    unfold getSettlement. rewrite He. cbn [default from_option id]. done.
  - exact Q2.
  - intros sid1 e1 sid2 e2 H1 H2 Heq.
    destruct (Q2 _ _ H1) as (_ & _ & _ & G1). destruct (Q2 _ _ H2) as (_ & _ & _ & G2).
    congruence.
Qed.

End Index.

(** ** Further properties: the mock token of the deployment script *)

Lemma mock_balance_store P A v m P' A' :
  MockNBPTDeployable.balanceOfByPartition (MockNBPTDeployable.store P A v m) P' A'
  = if decide (P' = P /\ A' = A) then v
    else MockNBPTDeployable.balanceOfByPartition m P' A'.
Proof.
  unfold MockNBPTDeployable.balanceOfByPartition, MockNBPTDeployable.store.
  cbn [MockNBPTDeployable._balances].
  destruct (decide (P' = P)) as [->|HP].
  - rewrite lookup_insert_eq. cbn [default from_option id].
    destruct (decide (A' = A)) as [->|HA].
    + rewrite lookup_insert_eq, decide_True by done. done.
    + rewrite lookup_insert_ne, decide_False by (intuition congruence). done.
  - rewrite lookup_insert_ne, decide_False by (intuition congruence). done.
Qed.

(** X20: in [MockNBPTDeployable], an issuance adds the amount to the one
    balance it names and to no other, and fails only when that balance would
    pass [2^256 - 1]; a burn of more than the balance reverts with the
    arithmetic panic, so no balance is ever driven below zero; and burning
    what was just issued restores every balance. *)
Theorem mock_issue_and_burn partition account amount m :
  (forall m1, MockNBPTDeployable.issueToPartition partition account amount m = Ok m1 ->
     (forall P A, MockNBPTDeployable.balanceOfByPartition m1 P A
        = MockNBPTDeployable.balanceOfByPartition m P A
          + (if decide (P = partition /\ A = account) then amount else 0)) /\
     exists m2,
       MockNBPTDeployable.burnFromPartition partition account amount m1 = Ok m2 /\
       forall P A, MockNBPTDeployable.balanceOfByPartition m2 P A
                   = MockNBPTDeployable.balanceOfByPartition m P A) /\
  (MockNBPTDeployable.balanceOfByPartition m partition account + amount <= MAX_UINT256 ->
     exists m1, MockNBPTDeployable.issueToPartition partition account amount m = Ok m1) /\
  (MockNBPTDeployable.balanceOfByPartition m partition account < amount ->
     MockNBPTDeployable.burnFromPartition partition account amount m = Revert (Panic 17)).
Proof.
  split_and!.
  - intros m1. unfold MockNBPTDeployable.issueToPartition.
    destruct (checked_add _ _) as [v|] eqn:E; [|done]. cbn [bindR]. intros [= <-].
    apply checked_add_inv in E as [-> _].
    assert (B1 : forall P A,
      MockNBPTDeployable.balanceOfByPartition
        (MockNBPTDeployable.store partition account
           (MockNBPTDeployable.balanceOfByPartition m partition account + amount) m) P A
      = MockNBPTDeployable.balanceOfByPartition m P A
        + (if decide (P = partition /\ A = account) then amount else 0)).
    { intros P A. rewrite mock_balance_store.
      destruct (decide _) as [[-> ->]|]; lia. }
    split; [exact B1|].
    unfold MockNBPTDeployable.burnFromPartition.
    rewrite checked_sub_ok.
    2:{ rewrite B1, decide_True by done. lia. }
    cbn [bindR]. eexists. split; [reflexivity|].
    intros P A. rewrite mock_balance_store.
    destruct (decide _) as [[-> ->]|].
    + rewrite B1, decide_True by done. lia.
    + rewrite B1, decide_False by done. lia.
  - intros Hle. unfold MockNBPTDeployable.issueToPartition.
    rewrite checked_add_ok by done. by eexists.
  - intros Hlt. unfold MockNBPTDeployable.burnFromPartition, checked_sub.
    destruct (N.leb_spec amount
                (MockNBPTDeployable.balanceOfByPartition m partition account)); [lia|done].
Qed.

Section MockRefines.

Variable keccak256 : list byte -> bytes32.
Hypothesis keccak256_inj : forall x y, keccak256 x = keccak256 y -> x = y.

Lemma partitionId_inj p q : partitionId keccak256 p = partitionId keccak256 q -> p = q.
Proof.
  destruct p, q; cbn [partitionId]; intros H; try done;
    apply keccak256_inj in H; discriminate H.
Qed.

(** X21: the token store the bridge is verified against is what
    [MockNBPTDeployable] does on its four partitions: from a mock and a store
    holding the same balances, an issuance goes through on both or fails on
    both with the same panic, a burn goes through on both or fails on both,
    and afterwards they hold the same balances again. *)
Theorem mock_implements_token_store m t :
  mockHolds keccak256 m t ->
  (forall p a amt,
     match MockNBPTDeployable.issueToPartition (partitionId keccak256 p) a amt m,
           issueToPartition p a amt t with
     | Ok m', Ok t' => mockHolds keccak256 m' t'
     | Revert e, Revert e' => e = e'
     | _, _ => False
     end) /\
  (forall p a amt,
     match MockNBPTDeployable.burnFromPartition (partitionId keccak256 p) a amt m,
           burnFromPartition p a amt t with
     | Ok m', Ok t' => mockHolds keccak256 m' t'
     | Revert _, Revert _ => True
     | _, _ => False
     end).
Proof.
  intros Hh. split; intros p a amt.
  - unfold MockNBPTDeployable.issueToPartition, issueToPartition. rewrite Hh.
    destruct (checked_add _ _) as [v|]; cbn [bindR]; [|done].
    intros q a'. rewrite mock_balance_store, balanceOf_insert.
    destruct (decide (q = p /\ a' = a)) as [[-> ->]|Hne].
    + by rewrite decide_True.
    + rewrite decide_False; [apply Hh|].
      intros [Hq ->]. apply partitionId_inj in Hq. tauto.
  - unfold MockNBPTDeployable.burnFromPartition, burnFromPartition, checked_sub.
    rewrite Hh.
    destruct (N.leb_spec amt (balanceOfByPartition t p a)) as [Hle|Hgt];
      destruct (N.ltb_spec (balanceOfByPartition t p a) amt) as [Hlt|Hge];
      try lia; cbn [bindR]; [|done].
    intros q a'. rewrite mock_balance_store, balanceOf_insert.
    destruct (decide (q = p /\ a' = a)) as [[-> ->]|Hne].
    + by rewrite decide_True.
    + rewrite decide_False; [apply Hh|].
      intros [Hq ->]. apply partitionId_inj in Hq. tauto.
Qed.

End MockRefines.

(** *** The further properties at concrete inputs *)

Lemma stranger_not_authorized :
  ~ authorized (Scenario.as_ Scenario.unauthorized) Scenario.genesis.
Proof. intros [H|H]; discriminate H. Qed.

Lemma bridged1_entry :
  settlements Scenario.bridged1 !! Scenario.sid "inv_1" 1 = Some Scenario.entry1.
Proof.
  pose proof bridge1_run as H. apply bridgeRevenue_ok_inv in H
    as (_ & _ & _ & _ & _ & _ & _ & _ & _ & split & t' & _ & _ & ->).
  cbn [settlements afterBridge]. apply lookup_insert_eq.
Qed.

Lemma operator_functions_reject_strangers_witness :
  bridgeRevenue idealHash (Scenario.as_ Scenario.unauthorized) "inv_unauth" 1000
    Scenario.payer0 Scenario.treasury 0
    (SOURCE_STRIPE idealHash) (DEST_DAO_TREASURY idealHash) Scenario.genesis
  = Revert Unauthorized.
Proof.
  apply (operator_functions_reject_strangers idealHash
           (Scenario.as_ Scenario.unauthorized) Scenario.genesis stranger_not_authorized).
Defined.

Lemma admin_functions_reject_non_owner_witness :
  setOperator (Scenario.as_ Scenario.operator0) 2457 Scenario.genesis
  = Revert (OwnableUnauthorizedAccount Scenario.operator0).
Proof.
  apply (admin_functions_reject_non_owner (Scenario.as_ Scenario.operator0) Scenario.genesis).
  discriminate.
Defined.

Lemma configuration_changes_need_owner_witness :
  allocation (transact idealHash (Scenario.as_ Scenario.operator0)
                (CallSetAllocation 5000 2500 1500 1000) Scenario.genesis)
  = allocation Scenario.genesis.
Proof.
  apply (configuration_changes_need_owner idealHash (Scenario.as_ Scenario.operator0)
           (CallSetAllocation 5000 2500 1500 1000) Scenario.genesis).
  discriminate.
Defined.

Lemma bridgeRevenue_validates_arguments_witness :
  bridgeRevenue idealHash (Scenario.as_ Scenario.operator0) "inv_zero" 0
    Scenario.payer0 Scenario.treasury 0
    (SOURCE_STRIPE idealHash) (DEST_DAO_TREASURY idealHash) Scenario.genesis
  = Revert ZeroAmount.
Proof.
  apply (bridgeRevenue_validates_arguments idealHash (Scenario.as_ Scenario.operator0)
           Scenario.genesis "inv_zero" 1000).
  - left. reflexivity.
  - reflexivity.
  - reflexivity.
Defined.

Lemma setOperator_rotates_witness :
  setOperator (Scenario.as_ Scenario.owner0) 2457 Scenario.genesis
  = Ok (tt, set_bridgeOperator 2457 Scenario.genesis).
Proof.
  apply (setOperator_rotates idealHash (Scenario.as_ Scenario.owner0) Scenario.genesis 2457).
  - reflexivity.
  - discriminate.
Defined.

Lemma pause_unpause_round_trip_witness :
  transact idealHash (Scenario.as_ Scenario.owner0) CallUnpause
    (transact idealHash (Scenario.as_ Scenario.owner0) CallPause Scenario.genesis)
  = Scenario.genesis.
Proof.
  apply (pause_unpause_round_trip idealHash (Scenario.as_ Scenario.owner0)
           (Scenario.as_ Scenario.owner0) Scenario.genesis); reflexivity.
Defined.

Lemma disputeSettlement_only_marks_witness :
  disputeSettlement (Scenario.as_ Scenario.operator0) 12345 Scenario.genesis
  = Revert (SettlementNotFound 12345).
Proof.
  apply (disputeSettlement_only_marks (Scenario.as_ Scenario.operator0) Scenario.genesis 12345).
  - left. reflexivity.
  - reflexivity.
Defined.

Lemma bridgeRevenue_postcondition_witness :
  getSettlementByInvoice idealHash Scenario.bridged1 "inv_1" = Scenario.sid "inv_1" 1 /\
  totalBalance (nbptToken Scenario.bridged1) Scenario.treasury
  = totalBalance (nbptToken Scenario.genesis) Scenario.treasury + 10000.
Proof.
  destruct (bridgeRevenue_postcondition idealHash _ _ _ _ _ _ _ _ _ _ _ bridge1_run)
    as (_ & H2 & _ & _ & _ & H6 & _).
  split; [exact H2|exact H6].
Defined.

Lemma reverseSettlement_postcondition_witness :
  totalRevenueReversed Scenario.reversed1
  = totalRevenueReversed Scenario.bridged1
    + amount (getSettlement Scenario.bridged1 (Scenario.sid "inv_1" 1)).
Proof.
  destruct (reverseSettlement_postcondition _ _ _ _ _ _ reverse1_run)
    as (_ & _ & _ & _ & H5 & _).
  exact H5.
Defined.


Lemma fresh_settlement_is_reversible_witness :
  exists s3,
    reverseSettlement (Scenario.as_ Scenario.owner0) (Scenario.sid "inv_1" 1) 7
      Scenario.bridged1 = Ok (tt, s3).
Proof.
  apply (fresh_settlement_is_reversible idealHash _ _ _ _ _ _ _ _ _ _ _
           (Scenario.as_ Scenario.owner0) 7 genesis_reachable bridge1_run).
  - right. reflexivity.
  - discriminate.
Defined.

Lemma totals_never_decrease_witness :
  totalRevenueBridged Scenario.genesis <= totalRevenueBridged Scenario.bridged1 /\
  totalRevenueReversed Scenario.genesis <= totalRevenueReversed Scenario.bridged1 /\
  _settlementNonce Scenario.genesis <= _settlementNonce Scenario.bridged1.
Proof.
  apply (proj1 (totals_never_decrease idealHash) Scenario.genesis Scenario.bridged1).
  apply rtc_once, step_call.
Defined.

Lemma constructor_deploys_witness :
  exists s,
    constructor Scenario.bridgeAddr Scenario.emptyToken
      Scenario.tokenAddr Scenario.operator0 Scenario.owner0 = Ok s /\
    owner s = Scenario.owner0 /\ bridgeOperator s = Scenario.operator0.
Proof.
  destruct (proj2 (constructor_deploys idealHash Scenario.bridgeAddr Scenario.emptyToken
                     Scenario.tokenAddr Scenario.operator0 Scenario.owner0))
    as (s & H1 & H2 & H3 & _); try discriminate.
  exists s. split; [exact H1|]. split; [exact H2|exact H3].
Defined.

Lemma staking_absorbs_at_most_three_units_witness :
  99 * stakingBps defaultAllocation / 10000 <= 12 /\
  12 <= 99 * stakingBps defaultAllocation / 10000 + 3.
Proof.
  apply (staking_absorbs_at_most_three_units defaultAllocation 99 39 29 19 12);
    reflexivity.
Defined.

Lemma bridged_total_is_sum_of_records_witness :
  totalRevenueBridged Scenario.reversed1 = amountSum (settlements Scenario.reversed1) /\
  N.of_nat (size (settlements Scenario.reversed1)) = _settlementNonce Scenario.reversed1.
Proof.
  apply (bridged_total_is_sum_of_records idealHash idealHash_inj).
  apply reversed1_reachable.
Defined.

Lemma settlement_records_are_immutable_witness :
  amount (getSettlement Scenario.reversed1 (Scenario.sid "inv_1" 1))
  = amount Scenario.entry1 /\
  beneficiary (getSettlement Scenario.reversed1 (Scenario.sid "inv_1" 1))
  = beneficiary Scenario.entry1.
Proof.
  destruct (settlement_records_are_immutable idealHash idealHash_inj
              Scenario.bridged1 Scenario.reversed1 (Scenario.sid "inv_1" 1) Scenario.entry1
              bridged1_reachable (rtc_once _ _ (step_call idealHash _ _ _)) bridged1_entry)
    as (_ & _ & _ & H4 & H5 & _).
  split; [exact H5|exact H4].
Defined.

Lemma settlement_ids_are_fresh_witness :
  settlements Scenario.genesis !! Scenario.sid "inv_1" 1 = None.
Proof.
  apply (settlement_ids_are_fresh idealHash idealHash_inj _ _ _ _ _ _ _ _ _ _ _
           genesis_reachable bridge1_run).
Defined.

Lemma disputed_settlement_cannot_be_reversed_witness :
  statusOf Scenario.disputed1_paused (Scenario.sid "inv_1" 1) = Some DISPUTED /\
  forall env' reason,
    transact idealHash env' (CallReverseSettlement (Scenario.sid "inv_1" 1) reason)
      Scenario.disputed1_paused = Scenario.disputed1_paused.
Proof.
  destruct (disputed_settlement_cannot_be_reversed idealHash idealHash_inj _ _ _ _ _
              Scenario.disputed1_paused
              bridged1_paused_reachable dispute_paused_run (rtc_refl _ _))
    as (H1 & _ & H3 & _).
  split; [exact H1|exact H3].
Defined.

Lemma index_and_ledger_agree_witness :
  invoiceId (getSettlement Scenario.reversed1
               (getSettlementByInvoice idealHash Scenario.reversed1 "inv_1")) = "inv_1"%string /\
  settlementId (getSettlement Scenario.reversed1
                  (getSettlementByInvoice idealHash Scenario.reversed1 "inv_1"))
  = getSettlementByInvoice idealHash Scenario.reversed1 "inv_1".
Proof.
  destruct (proj1 (index_and_ledger_agree idealHash idealHash_inj idealHash_nonzero
                     Scenario.reversed1 reversed1_reachable) "inv_1"%string)
    as (_ & H2 & H3).
  - vm_compute. reflexivity.
  - split; [exact H2|exact H3].
Defined.

Lemma mock_issue_and_burn_witness :
  exists m1,
    MockNBPTDeployable.issueToPartition (partitionId idealHash PARTITION_RESERVE)
      Scenario.treasury 4000 MockNBPTDeployable.empty = Ok m1.
Proof.
  apply (mock_issue_and_burn (partitionId idealHash PARTITION_RESERVE)
           Scenario.treasury 4000 MockNBPTDeployable.empty).
  vm_compute. discriminate.
Defined.

Lemma empty_mock_holds :
  mockHolds idealHash MockNBPTDeployable.empty Scenario.emptyToken.
Proof. intros p a. reflexivity. Qed.

Lemma mock_implements_token_store_witness :
  match MockNBPTDeployable.issueToPartition (partitionId idealHash PARTITION_STAKING)
          Scenario.treasury 1000 MockNBPTDeployable.empty,
        issueToPartition PARTITION_STAKING Scenario.treasury 1000 Scenario.emptyToken with
  | Ok m', Ok t' => mockHolds idealHash m' t'
  | Revert e, Revert e' => e = e'
  | _, _ => False
  end.
Proof.
  apply (mock_implements_token_store idealHash idealHash_inj
           MockNBPTDeployable.empty Scenario.emptyToken empty_mock_holds).
Defined.
